(** * Virtuoso Metronome: the audio scheduling core

    A shallow embedding of [src/services/AudioEngine.ts] (class [AudioEngine])
    together with the part of the host it talks to: the audio clock, the
    timer queue of [window.setTimeout], the audio output and the console.

    Numbers.  A JavaScript number is a binary64 value: [number] holds the
    finite values as the rationals they denote, next to [-0], the two
    infinities and [NaN], and every arithmetic operation rounds its exact
    result to the nearest double, ties to even ([round64]).  The clock
    reading is the value of a finite double.  Beat counters and
    [beatsPerMeasure] are integers ([Z]); timer handles are the positive
    integers [setTimeout] returns. *)

From Stdlib Require Import ZArith QArith Qminmax Qround Qabs Qpower Qreduction.
From Stdlib Require Import SpecFloat Lqa Lia String List.
From stdpp Require Import base option gmap.
Import ListNotations.

Local Open Scope Z_scope.

(** ** Numbers *)

Inductive number : Type :=
  | Fin (q : Q)      (* a finite value; [Fin 0] is +0 *)
  | NegZero
  | PosInf
  | NegInf
  | NaN.

Bind Scope Q_scope with number.
Coercion Fin : Q >-> number.

Definition Qltb (x y : Q) : bool :=
  match (x ?= y)%Q with Lt => true | _ => false end.

Definition pow2 (k : Z) : Q := (2 ^ k)%Q.

(** The exponent of a positive value: [2^k <= x < 2^(k+1)]. *)
Definition ilog2 (x : Q) : Z :=
  let k := Z.log2 (Qnum x) - Z.log2 (Zpos (Qden x)) in
  if Qle_bool (pow2 k) x then k else k - 1.

(** The nearest integer, a tie going to the even one. *)
Definition round_half_even (m : Q) : Z :=
  let f := Qfloor m in
  match (m - inject_Z f ?= 1 # 2)%Q with
  | Lt => f
  | Gt => f + 1
  | Eq => if Z.even f then f else f + 1
  end.

Definition signed_zero (neg : bool) : number := if neg then NegZero else Fin 0.
Definition signed_inf (neg : bool) : number := if neg then NegInf else PosInf.

(** Rounding to binary64: 53 significant bits, the unit in the last place
    not below [2^-1074], overflow to an infinity from [2^1024] on, underflow
    to a zero that keeps the sign. *)
Definition round64 (x : Q) : number :=
  if Qeq_bool x 0 then Fin 0 else
  let neg := Qltb x 0 in
  let a := Qabs x in
  let u := pow2 (Z.max (ilog2 a) (-1022) - 52) in
  let n := round_half_even (a / u) in
  let y := (inject_Z n * u)%Q in
  if Qle_bool (pow2 1024) y then signed_inf neg
  else if n =? 0 then signed_zero neg
  else Fin (Qred (if neg then - y else y)).

(** A decimal literal of the source denotes the nearest double. *)
Definition literal (q : Q) : number := round64 q.

Definition num_val (a : number) : option Q :=
  match a with
  | Fin q => Some q
  | NegZero => Some 0%Q
  | _ => None
  end.

(** The sign bit. *)
Definition num_neg_sign (a : number) : bool :=
  match a with
  | Fin q => Qltb q 0
  | NegZero | NegInf => true
  | _ => false
  end.

(** [a + b] *)
Definition num_add (a b : number) : number :=
  match a, b with
  | NaN, _ | _, NaN => NaN
  | PosInf, NegInf | NegInf, PosInf => NaN
  | PosInf, _ | _, PosInf => PosInf
  | NegInf, _ | _, NegInf => NegInf
  | NegZero, NegZero => NegZero
  | Fin x, Fin y => if Qeq_bool (x + y) 0 then Fin 0 else round64 (x + y)
  | Fin x, NegZero | NegZero, Fin x => if Qeq_bool x 0 then Fin 0 else round64 x
  end.

(** [- a] *)
Definition num_neg (a : number) : number :=
  match a with
  | Fin q => if Qeq_bool q 0 then NegZero else Fin (- q)
  | NegZero => Fin 0
  | PosInf => NegInf
  | NegInf => PosInf
  | NaN => NaN
  end.

(** [a - b] *)
Definition num_sub (a b : number) : number := num_add a (num_neg b).

(** [a * b] *)
Definition num_mul (a b : number) : number :=
  let neg := xorb (num_neg_sign a) (num_neg_sign b) in
  match num_val a, num_val b with
  | Some x, Some y =>
      if Qeq_bool (x * y) 0 then signed_zero neg else round64 (x * y)
  | Some x, None | None, Some x =>
      match a, b with
      | NaN, _ | _, NaN => NaN
      | _, _ => if Qeq_bool x 0 then NaN else signed_inf neg
      end
  | None, None =>
      match a, b with
      | NaN, _ | _, NaN => NaN
      | _, _ => signed_inf neg
      end
  end.

(** [a / b] *)
Definition num_div (a b : number) : number :=
  let neg := xorb (num_neg_sign a) (num_neg_sign b) in
  match a, b with
  | NaN, _ | _, NaN => NaN
  | (PosInf | NegInf), (PosInf | NegInf) => NaN
  | (PosInf | NegInf), _ => signed_inf neg
  | _, (PosInf | NegInf) => signed_zero neg
  | _, _ =>
      match num_val a, num_val b with
      | Some x, Some y =>
          if Qeq_bool y 0 then (if Qeq_bool x 0 then NaN else signed_inf neg)
          else if Qeq_bool x 0 then signed_zero neg
          else round64 (x / y)
      | _, _ => NaN
      end
  end.

(** [a < b] *)
Definition num_ltb (a b : number) : bool :=
  match a, b with
  | NaN, _ | _, NaN => false
  | PosInf, _ | _, NegInf => false
  | NegInf, _ | _, PosInf => true
  | _, _ =>
      match num_val a, num_val b with
      | Some x, Some y => Qltb x y
      | _, _ => false
      end
  end.

(** [Math.max(0, d)] *)
Definition num_max0 (d : number) : number :=
  match d with
  | NaN => NaN
  | _ => if num_ltb (Fin 0) d then d else Fin 0
  end.

(** What one rounding can add to a value between [2^-19] and [2^33]. *)
Definition eps : Q := 1 # 1048576.

(** [Math.max(0, (t - now) * 1000)] *)
Definition notify_delay (t : number) (now : Q) : number :=
  num_max0 (num_mul (num_sub t (Fin now)) (literal 1000)).

(** The value of a float of the Standard Library's IEEE 754 model. *)
Definition of_spec (f : spec_float) : number :=
  match f with
  | S754_zero s => signed_zero s
  | S754_infinity s => signed_inf s
  | S754_nan => NaN
  | S754_finite s m e =>
      Fin (Qred ((if s then -1 else 1) * inject_Z (Zpos m) * pow2 e))
  end.

(** ** src/types.ts *)

Inductive SoundProfile : Type := DIGITAL | WOOD | METALLIC | CUSTOM.

(** ** The host *)

(** [AudioContext.state] *)
Inductive ContextState : Type := suspended | running.

(** What a pending timer will run: the poll [() => this.scheduler()] or the
    beat notification [() => this.onBeat!(beatNumber)]. *)
Inductive Task : Type :=
  | PollTask
  | NotifyTask (beatNumber : Z).

Record Timer : Type := { task : Task; delay : number }.

Section Engine.

(** Decoded audio and UI callbacks are opaque to the engine. *)
Context {AudioBuffer Callback : Type}.

(** The host pipeline [fetch], [arrayBuffer], [decodeAudioData] of one sound
    datum: [None] when any of the three throws. *)
Variable decodeAudioData : string -> option AudioBuffer.

(** What one [scheduleNote] call starts on the audio graph. *)
Inductive Sound : Type :=
  | BufferPlayback (buffer : AudioBuffer)
      (* createBufferSource, source.start(time) *)
  | DigitalTone (frequency : Z)
      (* playDigital: sine, gain 0.5 to 0.001 at time + 0.08, stop time + 0.1 *)
  | MetallicBell (f1 f2 : Z) (gain decay : Q)
      (* two sines, stop time + 0.4 *)
  | WoodBlock (frequency : Z)
      (* triangle sweeping to half its pitch, plus a noise burst *)
  | Silence.
      (* playDigital returning before it creates a node *)

(** One scheduled note as handed to the renderer.  [r_clock] is the reading
    of [audioCtx.currentTime] during the call. *)
Record Rendered : Type := {
  r_beat : Z;
  r_time : number;
  r_accent : bool;
  r_sound : Sound;
  r_clock : Q
}.

Record World : Type := {
  currentTime : Q;                       (* audioCtx.currentTime, seconds *)
  timers : gmap positive Timer;          (* pending setTimeout tasks *)
  nextHandle : positive;                 (* the handle setTimeout gives next *)
  rendered : list Rendered;              (* notes handed to the audio graph *)
  console : list string;                 (* console.error *)
  notified : list (Callback * Z)         (* onBeat invocations *)
}.

Definition set_currentTime (c : Q) (w : World) : World :=
  {| currentTime := c; timers := timers w; nextHandle := nextHandle w;
     rendered := rendered w;
     console := console w; notified := notified w |}.

Definition set_timers (t : gmap positive Timer) (w : World) : World :=
  {| currentTime := currentTime w; timers := t; nextHandle := nextHandle w;
     rendered := rendered w;
     console := console w; notified := notified w |}.

Definition add_rendered (r : Rendered) (w : World) : World :=
  {| currentTime := currentTime w; timers := timers w;
     nextHandle := nextHandle w; rendered := rendered w ++ [r];
     console := console w; notified := notified w |}.

Definition console_error (msg : string) (w : World) : World :=
  {| currentTime := currentTime w; timers := timers w;
     nextHandle := nextHandle w; rendered := rendered w;
     console := console w ++ [msg]; notified := notified w |}.

Definition add_notified (cb : Callback) (beat : Z) (w : World) : World :=
  {| currentTime := currentTime w; timers := timers w;
     nextHandle := nextHandle w; rendered := rendered w;
     console := console w; notified := notified w ++ [(cb, beat)] |}.

(** [window.setTimeout(task, delay)]: the handles are 1, 2, 3, ... in the
    order of the calls. *)
Definition setTimeout (tk : Task) (d : number) (w : World) : World * positive :=
  let h := nextHandle w in
  ({| currentTime := currentTime w;
      timers := <[h := {| task := tk; delay := d |}]> (timers w);
      nextHandle := Pos.succ h;
      rendered := rendered w; console := console w; notified := notified w |},
   h).

(** [window.clearTimeout(h)] *)
Definition clearTimeout (h : positive) (w : World) : World :=
  set_timers (delete h (timers w)) w.

(** ** class AudioEngine *)

Record AudioEngine : Type := {
  audioCtx : option ContextState;
  nextNoteTime : number;
  timerID : option positive;
  bpm : number;
  beatsPerMeasure : Z;
  currentBeat : Z;
  profile : SoundProfile;
  onBeat : option Callback;
  customAccentBuffer : option AudioBuffer;
  customBeatBuffer : option AudioBuffer
}.

(** The two private fields no method assigns. *)
Definition lookahead : number := literal 25.
Definition scheduleAheadTime : number := literal (1 # 10).

(** The field initialisers. *)
Definition newAudioEngine : AudioEngine :=
  {| audioCtx := None; nextNoteTime := Fin 0; timerID := None;
     bpm := 100; beatsPerMeasure := 4; currentBeat := 0;
     profile := DIGITAL; onBeat := None;
     customAccentBuffer := None; customBeatBuffer := None |}.

Definition set_audioCtx (c : option ContextState) (e : AudioEngine) :=
  {| audioCtx := c; nextNoteTime := nextNoteTime e; timerID := timerID e;
     bpm := bpm e; beatsPerMeasure := beatsPerMeasure e;
     currentBeat := currentBeat e; profile := profile e; onBeat := onBeat e;
     customAccentBuffer := customAccentBuffer e;
     customBeatBuffer := customBeatBuffer e |}.

Definition set_nextNoteTime (t : number) (e : AudioEngine) :=
  {| audioCtx := audioCtx e; nextNoteTime := t; timerID := timerID e;
     bpm := bpm e; beatsPerMeasure := beatsPerMeasure e;
     currentBeat := currentBeat e; profile := profile e; onBeat := onBeat e;
     customAccentBuffer := customAccentBuffer e;
     customBeatBuffer := customBeatBuffer e |}.

Definition set_timerID (h : option positive) (e : AudioEngine) :=
  {| audioCtx := audioCtx e; nextNoteTime := nextNoteTime e; timerID := h;
     bpm := bpm e; beatsPerMeasure := beatsPerMeasure e;
     currentBeat := currentBeat e; profile := profile e; onBeat := onBeat e;
     customAccentBuffer := customAccentBuffer e;
     customBeatBuffer := customBeatBuffer e |}.

Definition set_currentBeat (b : Z) (e : AudioEngine) :=
  {| audioCtx := audioCtx e; nextNoteTime := nextNoteTime e;
     timerID := timerID e;
     bpm := bpm e; beatsPerMeasure := beatsPerMeasure e;
     currentBeat := b; profile := profile e; onBeat := onBeat e;
     customAccentBuffer := customAccentBuffer e;
     customBeatBuffer := customBeatBuffer e |}.

Definition set_customAccentBuffer (b : option AudioBuffer) (e : AudioEngine) :=
  {| audioCtx := audioCtx e; nextNoteTime := nextNoteTime e;
     timerID := timerID e;
     bpm := bpm e; beatsPerMeasure := beatsPerMeasure e;
     currentBeat := currentBeat e; profile := profile e; onBeat := onBeat e;
     customAccentBuffer := b;
     customBeatBuffer := customBeatBuffer e |}.

Definition set_customBeatBuffer (b : option AudioBuffer) (e : AudioEngine) :=
  {| audioCtx := audioCtx e; nextNoteTime := nextNoteTime e;
     timerID := timerID e;
     bpm := bpm e; beatsPerMeasure := beatsPerMeasure e;
     currentBeat := currentBeat e; profile := profile e; onBeat := onBeat e;
     customAccentBuffer := customAccentBuffer e;
     customBeatBuffer := b |}.

(** [initAudio]: the context is created on first use, suspended as the
    autoplay policy has it, and [resume()] is taken to act at once. *)
Definition initAudio (e : AudioEngine) : AudioEngine :=
  let e1 := match audioCtx e with
            | None => set_audioCtx (Some suspended) e
            | Some _ => e
            end in
  match audioCtx e1 with
  | Some suspended => set_audioCtx (Some running) e1
  | _ => e1
  end.

(** [setParams]: four assignments. *)
Definition setParams (bpm' : number) (beatsPerMeasure' : Z)
    (profile' : SoundProfile)
    (onBeat' : option Callback) (e : AudioEngine) : AudioEngine :=
  {| audioCtx := audioCtx e; nextNoteTime := nextNoteTime e;
     timerID := timerID e;
     bpm := bpm'; beatsPerMeasure := beatsPerMeasure';
     currentBeat := currentBeat e; profile := profile'; onBeat := onBeat';
     customAccentBuffer := customAccentBuffer e;
     customBeatBuffer := customBeatBuffer e |}.

(** JavaScript truthiness of a [string | null]. *)
Definition truthy (s : option string) : option string :=
  match s with
  | Some EmptyString => None
  | other => other
  end.

(** [decodeBase64]: the [catch] logs and returns [null]. *)
Definition decodeBase64 (e : AudioEngine) (base64 : string) (w : World)
    : option AudioBuffer * World :=
  match audioCtx e with
  | None => (None, w)
  | Some _ =>
      match decodeAudioData base64 with
      | Some buf => (Some buf, w)
      | None => (None, console_error "Failed to decode custom sound" w)
      end
  end.

(** [setCustomSounds], run from the call to the settlement of its promise
    (the two [await]s are taken in order, with no other engine call in
    between). *)
Definition setCustomSounds (accentData beatData : option string)
    (e : AudioEngine) (w : World) : AudioEngine * World :=
  let e0 := initAudio e in
  match audioCtx e0 with
  | None => (e0, w)
  | Some _ =>
      let '(e1, w1) :=
        match truthy accentData with
        | Some d => let '(b, w') := decodeBase64 e0 d w in
                    (set_customAccentBuffer b e0, w')
        | None => (set_customAccentBuffer None e0, w)
        end in
      match truthy beatData with
      | Some d => let '(b, w') := decodeBase64 e1 d w1 in
                  (set_customBeatBuffer b e1, w')
      | None => (set_customBeatBuffer None e1, w1)
      end
  end.

(** [beatNumber % this.beatsPerMeasure === 0].  [%] is the truncated
    remainder; with a zero divisor it is [NaN], which is not [=== 0]. *)
Definition isAccent (beatNumber beatsPerMeasure' : Z) : bool :=
  if beatsPerMeasure' =? 0 then false
  else Z.rem beatNumber beatsPerMeasure' =? 0.

(** [playDigital] *)
Definition playDigital (e : AudioEngine) (accent : bool) : Sound :=
  match audioCtx e with
  | None => Silence
  | Some _ => DigitalTone (if accent then 1000 else 600)
  end.

(** The [switch (this.profile)] of [scheduleNote]. *)
Definition renderSound (e : AudioEngine) (accent : bool) : Sound :=
  match profile e with
  | CUSTOM =>
      match (if accent then customAccentBuffer e else customBeatBuffer e) with
      | Some buffer => BufferPlayback buffer
      | None => playDigital e accent
      end
  | METALLIC =>
      if accent then MetallicBell 2000 3200 (6 # 10) (3 # 10)
      else MetallicBell 1500 2400 (3 # 10) (5 # 100)
  | WOOD => WoodBlock (if accent then 1000 else 700)
  | DIGITAL => playDigital e accent
  end.

(** [scheduleNote] *)
Definition scheduleNote (e : AudioEngine) (beatNumber : Z) (time : number)
    (w : World) : World :=
  match audioCtx e with
  | None => w
  | Some _ =>
      let accent := isAccent beatNumber (beatsPerMeasure e) in
      let w1 := add_rendered
                  {| r_beat := beatNumber; r_time := time; r_accent := accent;
                     r_sound := renderSound e accent;
                     r_clock := currentTime w |} w in
      match onBeat e with
      | Some _ =>
          fst (setTimeout (NotifyTask beatNumber)
                 (notify_delay time (currentTime w1)) w1)
      | None => w1
      end
  end.

(** [nextNote] *)
Definition nextNote (e : AudioEngine) : AudioEngine :=
  let secondsPerBeat := num_div (literal 60) (bpm e) in
  set_currentBeat (currentBeat e + 1)
    (set_nextNoteTime (num_add (nextNoteTime e) secondsPerBeat) e).

(** The [while] loop of [scheduler].  [None]: the loop is still running when
    the fuel is spent. *)
Fixpoint scheduler_loop (fuel : nat) (e : AudioEngine) (w : World)
    : option (AudioEngine * World) :=
  if num_ltb (nextNoteTime e)
       (num_add (Fin (currentTime w)) scheduleAheadTime) then
    match fuel with
    | O => None
    | S fuel' =>
        scheduler_loop fuel' (nextNote e)
          (scheduleNote e (currentBeat e) (nextNoteTime e) w)
    end
  else Some (e, w).

(** [scheduler] *)
Definition scheduler (fuel : nat) (e : AudioEngine) (w : World)
    : option (AudioEngine * World) :=
  match audioCtx e with
  | None => Some (e, w)
  | Some _ =>
      match scheduler_loop fuel e w with
      | None => None
      | Some (e', w') =>
          let '(w'', h) := setTimeout PollTask lookahead w' in
          Some (set_timerID (Some h) e', w'')
      end
  end.

(** [start] *)
Definition start (fuel : nat) (e : AudioEngine) (w : World)
    : option (AudioEngine * World) :=
  let e1 := initAudio e in
  let e2 := set_currentBeat 0 e1 in
  let e3 := set_nextNoteTime
              (num_add (Fin (currentTime w)) (literal (5 # 100))) e2 in
  scheduler fuel e3 w.

(** [stop] *)
Definition stop (e : AudioEngine) (w : World) : AudioEngine * World :=
  match timerID e with
  | Some h => (set_currentBeat 0 (set_timerID None e), clearTimeout h w)
  | None => (set_currentBeat 0 e, w)
  end.

(** ** The event loop *)

(** A pending timer comes due: it leaves the queue and its task runs.  The
    notification reads [this.onBeat] when it runs; the [!] on an absent
    callback is a [TypeError] the host reports. *)
Definition fireTimer (fuel : nat) (h : positive) (e : AudioEngine) (w : World)
    : option (AudioEngine * World) :=
  match timers w !! h with
  | None => Some (e, w)
  | Some t =>
      let w' := clearTimeout h w in
      match task t with
      | PollTask => scheduler fuel e w'
      | NotifyTask beat =>
          match onBeat e with
          | Some cb => Some (e, add_notified cb beat w')
          | None =>
              Some (e, console_error "TypeError: this.onBeat is not a function" w')
          end
      end
  end.

Inductive Event : Type :=
  | EvElapse (dt : Q)                       (* the audio clock advances *)
  | EvStart
  | EvStop
  | EvSetParams (bpm' : number) (beatsPerMeasure' : Z) (profile' : SoundProfile)
      (onBeat' : option Callback)
  | EvSetCustomSounds (accentData beatData : option string)
  | EvTimer (h : positive).                 (* a pending timer comes due *)

Definition step (fuel : nat) (ev : Event) (s : AudioEngine * World)
    : option (AudioEngine * World) :=
  let '(e, w) := s in
  match ev with
  | EvElapse dt => Some (e, set_currentTime (currentTime w + dt) w)
  | EvStart => start fuel e w
  | EvStop => Some (stop e w)
  | EvSetParams b m p cb => Some (setParams b m p cb e, w)
  | EvSetCustomSounds a b => Some (setCustomSounds a b e w)
  | EvTimer h => fireTimer fuel h e w
  end.

Fixpoint run (fuel : nat) (evs : list Event) (s : AudioEngine * World)
    : option (AudioEngine * World) :=
  match evs with
  | [] => Some s
  | ev :: evs' =>
      match step fuel ev s with
      | None => None
      | Some s' => run fuel evs' s'
      end
  end.

Definition initialWorld (now : Q) : World :=
  {| currentTime := now; timers := ∅; nextHandle := 1%positive;
     rendered := []; console := []; notified := [] |}.

(** The loop test of [scheduler]. *)
Definition due (e : AudioEngine) (w : World) : bool :=
  num_ltb (nextNoteTime e) (num_add (Fin (currentTime w)) scheduleAheadTime).

(** A pending poll task. *)
Definition poll_pending (w : World) (h : positive) : Prop :=
  exists tm, timers w !! h = Some tm /\ task tm = PollTask.

(** ** The vocabulary of the properties *)

(** The tempos of the dial, 1 to 240 beats per minute. *)
Definition tempo_in_range (b : number) : Prop :=
  exists T, b = Fin T /\ (1 <= T)%Q /\ (T <= 240)%Q.

(** The clock readings covered: up to [2^31] seconds, some 68 years. *)
Definition clock_max : Q := 2147483648.

Definition clock_ok (c : Q) : Prop := (0 <= c)%Q /\ (c <= clock_max)%Q.

(** The rounding error allowed on an interval: [2^-19] seconds, twice what
    one rounding can add below [2^33]. *)
Definition tolerance : Q := 1 # 524288.

(** [Chain s b0 t0 l b t]: the notes [l] carry the beat indices [b0],
    [b0 + 1], ... and the times [t0], [t0 + s], [(t0 + s) + s], ..., each
    sum rounded as the engine rounds it; [b] and [t] are the index and the
    time the next note would get. *)
Inductive Chain (s : number) (b0 : Z) (t0 : number)
    : list Rendered -> Z -> number -> Prop :=
  | Chain_nil : Chain s b0 t0 [] b0 t0
  | Chain_snoc l b t r :
      Chain s b0 t0 l b t -> r_beat r = b -> r_time r = t ->
      Chain s b0 t0 (l ++ [r]) (b + 1) (num_add t s).

(** An event of a run in which the tempo stays [T]: no [start], no [stop],
    [setParams] only with the tempo [T], and a clock that does not go
    back. *)
Definition held_constant (T : Q) (ev : Event) : Prop :=
  match ev with
  | EvStart | EvStop => False
  | EvSetParams bpm' _ _ _ => bpm' = Fin T
  | EvElapse dt => (0 <= dt)%Q
  | _ => True
  end.

(** The time that passes on the clock during a run. *)
Fixpoint elapsed (evs : list Event) : Q :=
  match evs with
  | [] => 0
  | EvElapse dt :: evs' => dt + elapsed evs'
  | _ :: evs' => elapsed evs'
  end.

(** A note for a finite time within the clock's range. *)
Definition timed (r : Rendered) : Prop :=
  exists x, r_time r = Fin x /\ (0 <= x)%Q /\ (x <= clock_max + 1)%Q.

(** The engine runs at tempo [T], and since the state in which the trace was
    [base] and the next note was beat [b0] at [t0] it has rendered a stream
    of notes one rounded interval apart. *)
Definition Steady (T : Q) (base : list Rendered) (b0 : Z) (t0 : number)
    (s : AudioEngine * World) : Prop :=
  bpm (fst s) = Fin T /\ clock_ok (currentTime (snd s)) /\
  exists new b t,
    rendered (snd s) = base ++ new /\
    Chain (num_div (literal 60) (Fin T)) b0 t0 new b (Fin t) /\
    Forall timed new /\
    currentBeat (fst s) = b /\ nextNoteTime (fst s) = Fin t /\ (0 <= t)%Q.

Definition decode_failure_message : string := "Failed to decode custom sound".

(** A run in which [start] is only called while stopped, the discipline of
    the caller's [togglePlay]. *)
Fixpoint alternating (playing : bool) (evs : list Event) : Prop :=
  match evs with
  | [] => True
  | EvStart :: evs' => playing = false /\ alternating true evs'
  | EvStop :: evs' => alternating false evs'
  | _ :: evs' => alternating playing evs'
  end.

Fixpoint playing_after (playing : bool) (evs : list Event) : bool :=
  match evs with
  | [] => playing
  | EvStart :: evs' => playing_after true evs'
  | EvStop :: evs' => playing_after false evs'
  | _ :: evs' => playing_after playing evs'
  end.

(** Every pending poll task is the one [timerID] names; a stopped engine
    names none and is at beat 0. *)
Definition Tidy (playing : bool) (s : AudioEngine * World) : Prop :=
  (forall h, poll_pending (snd s) h -> timerID (fst s) = Some h) /\
  (playing = false -> timerID (fst s) = None /\ currentBeat (fst s) = 0).

(** The target time of a rendered note lies after the clock reading of the
    call that rendered it. *)
Definition ahead (r : Rendered) : Prop :=
  exists x, r_time r = Fin x /\ (r_clock r < x)%Q.

(** The end of the window of a pass made at clock reading [p], the right
    side of the loop test. *)
Definition window_end (p : Q) : number := num_add (Fin p) scheduleAheadTime.

(** The exit condition of the loop of a pass made at clock reading [p]. *)
Definition window_kept (p : Q) (e : AudioEngine) : Prop :=
  num_ltb (nextNoteTime e) (window_end p) = false.

(** The states of the engine and its host in which the tempo stays on the
    dial, the clock stays in range, and every poll runs before the clock
    reaches the end of the window of the previous pass of [scheduler] (the
    one made by [start] or by a poll).  The index is the clock reading of
    the latest pass.  The clock does not move while an engine method
    runs. *)
Inductive Timely : Q -> AudioEngine * World -> Prop :=
  | Timely_new now :
      clock_ok now -> Timely now (newAudioEngine, initialWorld now)
  | Timely_elapse p e w dt :
      Timely p (e, w) -> (0 <= dt)%Q -> (currentTime w + dt <= clock_max)%Q ->
      Timely p (e, set_currentTime (currentTime w + dt) w)
  | Timely_start p e w fuel s' :
      Timely p (e, w) -> start fuel e w = Some s' ->
      Timely (currentTime w) s'
  | Timely_stop p e w :
      Timely p (e, w) -> Timely p (stop e w)
  | Timely_setParams p e w b m pr cb :
      Timely p (e, w) -> tempo_in_range b ->
      Timely p (setParams b m pr cb e, w)
  | Timely_setCustomSounds p e w a b :
      Timely p (e, w) -> Timely p (setCustomSounds a b e w)
  | Timely_poll p e w h tm fuel s' :
      Timely p (e, w) ->
      timers w !! h = Some tm -> task tm = PollTask ->
      num_ltb (Fin (currentTime w)) (window_end p) = true ->
      fireTimer fuel h e w = Some s' ->
      Timely (currentTime w) s'
  | Timely_notify p e w h tm beat fuel s' :
      Timely p (e, w) ->
      timers w !! h = Some tm -> task tm = NotifyTask beat ->
      fireTimer fuel h e w = Some s' ->
      Timely p s'.

(** What holds in every timely state. *)
Definition OnTime (p : Q) (s : AudioEngine * World) : Prop :=
  Forall ahead (rendered (snd s)) /\
  tempo_in_range (bpm (fst s)) /\ clock_ok (currentTime (snd s)) /\
  (exists t, nextNoteTime (fst s) = Fin t /\ (0 <= t)%Q) /\
  ((exists h, poll_pending (snd s) h) ->
     audioCtx (fst s) <> None /\ window_kept p (fst s)).

End Engine.

(** * Concrete runs
    The host is instantiated: decoded audio is the datum it came from, a
    datum decodes when it is an audio data URL, and a callback is a number. *)

Definition demo_decode (d : string) : option string :=
  if String.prefix "data:audio/" d then Some d else None.

Definition demo_engine (tempo : Q) (beats : Z) (p : SoundProfile)
    : @AudioEngine string nat :=
  setParams tempo beats p (Some 0%nat) newAudioEngine.

Definition demo_world : @World string nat := initialWorld 0.

Definition demo_run := @run string nat demo_decode.

(** The rendered notes as (beat, time, accent, sound). *)
Definition notes_of (s : option (@AudioEngine string nat * @World string nat)) :=
  match s with
  | Some (_, w) =>
      map (fun r => (r_beat r, r_time r, r_accent r, r_sound r)) (rendered w)
  | None => []
  end.

(** Play, one poll, stop, and a second stop. *)
Definition toggle_run : list (@Event nat) :=
  [EvSetParams 120 4 DIGITAL (Some 0%nat); EvStart; EvElapse (3 # 100);
   EvTimer 2; EvStop; EvStop].

(** Four polls half a second apart. *)
Definition half_second_polls : list (@Event nat) :=
  [EvElapse (1 # 2); EvTimer 2; EvElapse (1 # 2); EvTimer 4;
   EvElapse (1 # 2); EvTimer 6; EvElapse (1 # 2); EvTimer 8].

(** Three polls that find no note due or one; each runs 101.6, 97.7 and
    113.3 ms after it was armed with a delay of 25 ms, less than 100 ms
    late. *)
Definition late_polls : list (@Event nat) :=
  [EvElapse (26 # 256); EvTimer 2; EvElapse (25 # 256); EvTimer 3;
   EvElapse (29 # 256); EvTimer 4].

(** Three polls, each just inside the window of the pass before it. *)
Definition tight_polls : list (@Event nat) :=
  [EvElapse (409 # 4096); EvTimer 2; EvElapse (409 # 4096); EvTimer 3;
   EvElapse (409 # 4096); EvTimer 4].

(** The tempo [1e20], a double. *)
Definition tempo_1e20 : Q := 100000000000000000000.

(** The Custom profile with an accent sound only. *)
Definition accent_only_engine : @AudioEngine string nat :=
  fst (setCustomSounds demo_decode
         (Some "data:audio/wav;base64,UklGRg"%string) None
         (demo_engine 120 4 CUSTOM) demo_world).

(** An accent datum that does not decode, next to a beat datum that does. *)
Definition after_bad_accent :=
  setCustomSounds demo_decode
    (Some "not a sound"%string) (Some "data:audio/wav;base64,UklGRg"%string)
    (demo_engine 120 4 CUSTOM) demo_world.

(** * Properties *)

Section Properties.

Context {AudioBuffer Callback : Type}.
Variable decodeAudioData : string -> option AudioBuffer.

Local Abbreviation AudioEngine := (@AudioEngine AudioBuffer Callback).
Local Abbreviation World := (@World AudioBuffer Callback).
Local Abbreviation Rendered := (@Rendered AudioBuffer).
Local Abbreviation Event := (@Event Callback).

Implicit Types (e : AudioEngine) (w : World).
Implicit Types (ev : Event) (evs : list Event).
Implicit Types (cb : option Callback) (l base : list Rendered).

Local Abbreviation decodeBase64 := (decodeBase64 decodeAudioData).
Local Abbreviation setCustomSounds := (setCustomSounds decodeAudioData).
Local Abbreviation step := (step decodeAudioData).
Local Abbreviation run := (run decodeAudioData).
Local Abbreviation Timely := (Timely decodeAudioData).

(** ** Binary64 arithmetic *)

Lemma Qltb_true (x y : Q) : Qltb x y = true <-> (x < y)%Q.
Proof.
  unfold Qltb. rewrite Qlt_alt. destruct (x ?= y)%Q; split; congruence.
Qed.

Lemma Qltb_false (x y : Q) : Qltb x y = false <-> (y <= x)%Q.
Proof.
  unfold Qltb. rewrite Qle_alt, <- Qgt_alt, Qlt_alt.
  destruct (x ?= y)%Q; split; congruence.
Qed.

Lemma round_half_even_near (m : Q) :
  (m - (1 # 2) <= inject_Z (round_half_even m) <= m + (1 # 2))%Q.
Proof.
  unfold round_half_even.
  pose proof (Qfloor_le m) as Hlo. pose proof (Qlt_floor m) as Hhi.
  rewrite inject_Z_plus in Hhi. change (inject_Z 1) with 1%Q in Hhi.
  set (f := Qfloor m) in *.
  destruct (m - inject_Z f ?= 1 # 2)%Q eqn:E.
  - apply Qeq_alt in E.
    destruct (Z.even f); rewrite ?inject_Z_plus; change (inject_Z 1) with 1%Q;
      lra.
  - apply Qlt_alt in E. lra.
  - apply Qgt_alt in E. rewrite inject_Z_plus. change (inject_Z 1) with 1%Q. lra.
Qed.

Lemma ilog2_le (x : Q) : (0 < x)%Q -> (x <= 8589934592)%Q -> ilog2 x <= 33.
Proof.
  intros Hpos Hle. unfold ilog2.
  assert (Hk : Z.log2 (Qnum x) - Z.log2 (Z.pos (Qden x)) <= 33).
  { destruct x as [n d]. cbn [Qnum Qden] in *.
    unfold Qle in Hle. unfold Qlt in Hpos.
    cbn [Qnum Qden] in Hle, Hpos.
    change (2 ^ 33) with 8589934592.
    assert (Hn : Z.log2 n <= Z.log2 (Z.pos d * 2 ^ 33)).
    { apply Z.log2_le_mono. change (2 ^ 33) with 8589934592.
      rewrite Z.mul_1_r in Hle. rewrite Z.mul_comm. exact Hle. }
    rewrite Z.log2_mul_pow2 in Hn by lia. lia. }
  destruct (Qle_bool _ _); lia.
Qed.

Lemma pow2_pos (k : Z) : (0 < pow2 k)%Q.
Proof. apply Qpower_0_lt. reflexivity. Qed.

Lemma pow2_le (j k : Z) : j <= k -> (pow2 j <= pow2 k)%Q.
Proof. intros H. apply Qpower_le_compat_l; [exact H|discriminate]. Qed.

(** On the positive numbers up to [2^33], rounding to binary64 moves a
    value by at most [2^-20]. *)
Lemma round64_near (x : Q) :
  (1 # 524288 <= x)%Q -> (x <= 8589934592)%Q ->
  exists y, round64 x = Fin y /\ (x - eps <= y <= x + eps)%Q.
Proof.
  intros Hlo Hhi. unfold round64.
  destruct (Qeq_bool x 0) eqn:E0; [apply Qeq_bool_eq in E0; lra|].
  replace (Qltb x 0) with false by (symmetry; apply Qltb_false; lra).
  assert (Ha : (Qabs x == x)%Q) by (apply Qabs_pos; lra).
  set (a := Qabs x) in *.
  assert (He : Z.max (ilog2 a) (-1022) - 52 <= -19).
  { pose proof (ilog2_le a) as H.
    lapply H; [intros H1; lapply H1; [lia|lra]|lra]. }
  set (u := pow2 (Z.max (ilog2 a) (-1022) - 52)).
  assert (Hu0 : (0 < u)%Q) by apply pow2_pos.
  assert (Hu1 : (u <= 1 # 524288)%Q).
  { apply (Qle_trans _ (pow2 (-19))); [now apply pow2_le|]. discriminate. }
  pose proof (round_half_even_near (a / u)) as Hn.
  set (n := round_half_even (a / u)) in *.
  assert (Hm : (a / u * u == a)%Q) by (field; lra).
  set (m := (a / u)%Q) in *.
  assert (Hy : (a - eps <= inject_Z n * u <= a + eps)%Q).
  { unfold eps. split; nra. }
  assert (Hbig : (8589934593 < pow2 1024)%Q) by reflexivity.
  destruct (Qle_bool (pow2 1024) (inject_Z n * u)) eqn:Eo.
  { apply Qle_bool_iff in Eo. unfold eps in Hy. lra. }
  destruct (Z.eqb_spec n 0) as [Hz|Hz].
  { rewrite Hz in Hy. change (inject_Z 0) with 0%Q in Hy.
    unfold eps in Hy. lra. }
  eexists. split; [reflexivity|]. rewrite Qred_correct. lra.
Qed.

Lemma num_add_near (x y : Q) :
  (0 <= x)%Q -> (1 # 524288 <= y)%Q -> (x + y <= 8589934592)%Q ->
  exists z, num_add (Fin x) (Fin y) = Fin z /\
            (x + y - eps <= z <= x + y + eps)%Q.
Proof.
  intros Hx Hy Hs.
  change (num_add (Fin x) (Fin y))
    with (if Qeq_bool (x + y) 0 then Fin 0 else round64 (x + y)).
  destruct (Qeq_bool (x + y) 0) eqn:E; [apply Qeq_bool_eq in E; lra|].
  apply round64_near; lra.
Qed.

Lemma literal_60 : literal 60 = Fin 60.
Proof. vm_compute. reflexivity. Qed.

(** The double 0.1. *)
Lemma scheduleAheadTime_value :
  scheduleAheadTime = Fin (3602879701896397 # 36028797018963968).
Proof. vm_compute. reflexivity. Qed.

(** The double 0.05. *)
Lemma startup_offset_value :
  literal (5 # 100) = Fin (3602879701896397 # 72057594037927936).
Proof. vm_compute. reflexivity. Qed.

(** The end of the window lies 100 ms after the clock reading, up to
    rounding. *)
Lemma window_end_near (c : Q) :
  clock_ok c ->
  exists L, window_end c = Fin L /\
            (c + (1 # 10) - tolerance <= L <= c + (1 # 10) + tolerance)%Q.
Proof.
  intros [H0 H1]. unfold window_end, clock_max in *.
  rewrite scheduleAheadTime_value.
  destruct (num_add_near c (3602879701896397 # 36028797018963968))
    as (L & HL & Hb); [exact H0|lra|lra|].
  exists L. split; [exact HL|]. unfold tolerance, eps in *. lra.
Qed.

(** The time [start] gives the first note lies 50 ms after the clock
    reading, up to rounding. *)
Lemma start_time_near (c : Q) :
  clock_ok c ->
  exists t, num_add (Fin c) (literal (5 # 100)) = Fin t /\
            (c + (5 # 100) - tolerance <= t <= c + (5 # 100) + tolerance)%Q.
Proof.
  intros [H0 H1]. unfold clock_max in *. rewrite startup_offset_value.
  destruct (num_add_near c (3602879701896397 # 72057594037927936))
    as (t & Ht & Hb); [exact H0|lra|lra|].
  exists t. split; [exact Ht|]. unfold tolerance, eps in *. lra.
Qed.

Lemma seconds_per_beat_bounds (T : Q) :
  (1 <= T)%Q -> (T <= 240)%Q -> (1 # 4 <= 60 / T <= 60)%Q.
Proof.
  intros Hlo Hhi. split.
  - apply Qle_shift_div_l; lra.
  - apply Qle_shift_div_r; lra.
Qed.

(** [60.0 / bpm] at a tempo of the dial. *)
Lemma seconds_per_beat_near (T : Q) :
  (1 <= T)%Q -> (T <= 240)%Q ->
  exists s, num_div (literal 60) (Fin T) = Fin s /\
            (60 / T - eps <= s <= 60 / T + eps)%Q /\ (1 # 5 <= s <= 61)%Q.
Proof.
  intros Hlo Hhi. rewrite literal_60.
  destruct (seconds_per_beat_bounds T Hlo Hhi) as [B1 B2].
  assert (E : num_div (Fin 60) (Fin T) = round64 (60 / T)).
  { cbv beta iota zeta delta [num_div num_val].
    destruct (Qeq_bool T 0) eqn:E0; [apply Qeq_bool_eq in E0; lra|].
    reflexivity. }
  rewrite E. destruct (round64_near (60 / T)) as (s & Hs & Hb); [lra|lra|].
  exists s. split; [exact Hs|]. unfold eps in *. split; lra.
Qed.

(** One interval added to a note time within the clock's range. *)
Lemma interval_near (T t : Q) :
  (1 <= T)%Q -> (T <= 240)%Q -> (0 <= t)%Q -> (t <= clock_max + 1)%Q ->
  exists t', num_add (Fin t) (num_div (literal 60) (Fin T)) = Fin t' /\
             (Qabs (t' - t - 60 / T) <= tolerance)%Q /\ (t + (1 # 5) <= t')%Q.
Proof.
  intros Hlo Hhi H0 H1. unfold clock_max in H1.
  destruct (seconds_per_beat_near T Hlo Hhi) as (s & -> & Hs & Hr).
  destruct (seconds_per_beat_bounds T Hlo Hhi) as [B1 B2].
  destruct (num_add_near t s) as (t' & -> & Hb); [exact H0|lra|lra|].
  exists t'. split; [reflexivity|]. unfold tolerance, eps in *.
  split; [apply Qabs_Qle_condition; split; lra|lra].
Qed.

(** A clock reading before the end of a window lies before a note time the
    window left out. *)
Lemma before_window_end (now t : Q) (L : number) :
  num_ltb (Fin now) L = true -> num_ltb (Fin t) L = false -> (now < t)%Q.
Proof.
  destruct L as [l| | | |]; cbn; intros H1 H2; try discriminate.
  - apply Qltb_true in H1. apply Qltb_false in H2. lra.
  - apply Qltb_true in H1. apply Qltb_false in H2. lra.
Qed.

(** ** Basic facts *)

Lemma initAudio_ctx (e : AudioEngine) : audioCtx (initAudio e) = Some running.
Proof.
  unfold initAudio. destruct (audioCtx e) as [[]|] eqn:E; cbn; rewrite ?E; reflexivity.
Qed.

Ltac init_audio_cases e :=
  unfold initAudio; destruct (audioCtx e) as [[]|] eqn:?E; cbn; rewrite ?E; cbn.

(** [initAudio] touches the context only. *)
Lemma initAudio_frame e :
  nextNoteTime (initAudio e) = nextNoteTime e /\
  timerID (initAudio e) = timerID e /\
  bpm (initAudio e) = bpm e /\
  beatsPerMeasure (initAudio e) = beatsPerMeasure e /\
  currentBeat (initAudio e) = currentBeat e /\
  profile (initAudio e) = profile e /\
  onBeat (initAudio e) = onBeat e /\
  customAccentBuffer (initAudio e) = customAccentBuffer e /\
  customBeatBuffer (initAudio e) = customBeatBuffer e.
Proof. init_audio_cases e; repeat split. Qed.

Lemma scheduleNote_rendered e c b t w :
  audioCtx e = Some c ->
  rendered (scheduleNote e b t w) =
    rendered w ++
      [{| r_beat := b; r_time := t;
          r_accent := isAccent b (beatsPerMeasure e);
          r_sound := renderSound e (isAccent b (beatsPerMeasure e));
          r_clock := currentTime w |}].
Proof.
  intros Hc. unfold scheduleNote. rewrite Hc.
  destruct (onBeat e); reflexivity.
Qed.

Lemma scheduleNote_currentTime e b t w :
  currentTime (scheduleNote e b t w) = currentTime w.
Proof.
  unfold scheduleNote. destruct (audioCtx e), (onBeat e); reflexivity.
Qed.

(** A timer pending after [scheduleNote] was pending before, or is the
    notification of the beat. *)
Lemma scheduleNote_timers e b t w h tm :
  timers (scheduleNote e b t w) !! h = Some tm ->
  timers w !! h = Some tm \/ task tm = NotifyTask b.
Proof.
  unfold scheduleNote. destruct (audioCtx e); [|auto].
  destruct (onBeat e); [|auto]. cbn.
  intros Hl. apply lookup_insert_Some in Hl as [[_ <-]|[_ Hl]]; auto.
Qed.

(** ** The scheduling loop *)

(** More fuel does not change a result. *)
Lemma scheduler_loop_mono fuel fuel' e w r :
  scheduler_loop fuel e w = Some r -> (fuel <= fuel')%nat ->
  scheduler_loop fuel' e w = Some r.
Proof.
  revert fuel' e w. induction fuel as [|fuel IH]; intros fuel' e w H Hle.
  - cbn in H. destruct fuel'; cbn;
      destruct (num_ltb _ _); congruence.
  - destruct fuel' as [|fuel']; [lia|]. cbn in *.
    destruct (num_ltb _ _); [|exact H].
    apply IH; [exact H|lia].
Qed.

(** The rule of the [while] loop: what every iteration preserves holds at
    the exit, where the test is false. *)
Lemma scheduler_loop_inv (I : AudioEngine -> World -> Prop) :
  (forall e w, I e w -> due e w = true ->
     I (nextNote e) (scheduleNote e (currentBeat e) (nextNoteTime e) w)) ->
  forall fuel e w e' w',
    scheduler_loop fuel e w = Some (e', w') -> I e w ->
    I e' w' /\ due e' w' = false.
Proof.
  intros Hbody. induction fuel as [|fuel IH]; intros e w e' w' H HI; cbn in H.
  - destruct (num_ltb _ _) eqn:E; [discriminate|].
    injection H as <- <-. auto.
  - destruct (num_ltb _ _) eqn:E.
    + eapply IH; [exact H|]. apply Hbody; assumption.
    + injection H as <- <-. auto.
Qed.

Lemma scheduler_loop_not_due fuel e w :
  due e w = false -> scheduler_loop fuel e w = Some (e, w).
Proof.
  unfold due. intros H. destruct fuel; cbn [scheduler_loop]; now rewrite H.
Qed.

Lemma scheduler_loop_due fuel e w :
  due e w = true ->
  scheduler_loop (S fuel) e w =
    scheduler_loop fuel (nextNote e)
      (scheduleNote e (currentBeat e) (nextNoteTime e) w).
Proof. unfold due. intros H. cbn [scheduler_loop]. now rewrite H. Qed.

(** A note that is due lies within the window, less than a second after
    the clock reading. *)
Lemma due_before_window_end e w t :
  clock_ok (currentTime w) -> nextNoteTime e = Fin t -> due e w = true ->
  (t < currentTime w + 1)%Q.
Proof.
  intros Hc Ht Hdue. unfold due in Hdue. rewrite Ht in Hdue.
  destruct (window_end_near _ Hc) as (L & HL & HLb).
  unfold window_end in HL. rewrite HL in Hdue. cbn in Hdue.
  apply Qltb_true in Hdue. unfold tolerance in HLb. lra.
Qed.

(** One iteration at a tempo of the dial moves the next note time on by the
    interval, up to rounding. *)
Lemma nextNote_advance e w (T t : Q) :
  bpm e = Fin T -> (1 <= T)%Q -> (T <= 240)%Q ->
  clock_ok (currentTime w) -> nextNoteTime e = Fin t -> (0 <= t)%Q ->
  due e w = true ->
  exists t', nextNoteTime (nextNote e) = Fin t' /\
             (Qabs (t' - t - 60 / T) <= tolerance)%Q /\ (t + (1 # 5) <= t')%Q.
Proof.
  intros Hb Hlo Hhi Hc Ht H0 Hdue.
  pose proof (due_before_window_end e w t Hc Ht Hdue) as Hlt.
  cbn [nextNote nextNoteTime set_currentBeat set_nextNoteTime].
  rewrite Ht, Hb. apply interval_near; try assumption.
  destruct Hc as [_ Hc]. lra.
Qed.

(** At a tempo of the dial, [n] iterations are enough as soon as [n] fifths
    of a second reach past the window. *)
Lemma scheduler_loop_fuel_enough (n : nat) : forall e w (T t : Q),
  bpm e = Fin T -> (1 <= T)%Q -> (T <= 240)%Q ->
  clock_ok (currentTime w) -> nextNoteTime e = Fin t -> (0 <= t)%Q ->
  (currentTime w + 1 <= t + inject_Z (Z.of_nat n) * (1 # 5))%Q ->
  exists r, scheduler_loop n e w = Some r.
Proof.
  induction n as [|n IH]; intros e w T t Hb Hlo Hhi Hc Ht H0 Hn.
  - destruct (due e w) eqn:Hdue.
    + pose proof (due_before_window_end e w t Hc Ht Hdue) as Hlt.
      change (inject_Z (Z.of_nat 0)) with 0%Q in Hn. lra.
    + rewrite (scheduler_loop_not_due _ _ _ Hdue). eauto.
  - destruct (due e w) eqn:Hdue.
    + rewrite (scheduler_loop_due _ _ _ Hdue).
      destruct (nextNote_advance e w T t Hb Hlo Hhi Hc Ht H0 Hdue)
        as (t' & Ht' & _ & Hadv).
      apply (IH _ _ T t'); try assumption.
      * now rewrite scheduleNote_currentTime.
      * lra.
      * rewrite scheduleNote_currentTime.
        rewrite Nat2Z.inj_succ, <- Z.add_1_r, inject_Z_plus in Hn.
        change (inject_Z 1) with 1%Q in Hn.
        set (k := inject_Z (Z.of_nat n)) in *. lra.
    + rewrite (scheduler_loop_not_due _ _ _ Hdue). eauto.
Qed.

Lemma scheduler_loop_terminates e w (T t : Q) :
  bpm e = Fin T -> (1 <= T)%Q -> (T <= 240)%Q ->
  clock_ok (currentTime w) -> nextNoteTime e = Fin t -> (0 <= t)%Q ->
  exists fuel r, scheduler_loop fuel e w = Some r.
Proof.
  intros Hb Hlo Hhi Hc Ht H0.
  set (x := ((currentTime w + 1 - t) * 5)%Q).
  exists (Z.to_nat (Qceiling x)).
  apply (scheduler_loop_fuel_enough _ e w T t); try assumption.
  assert (Hx : (x <= inject_Z (Z.of_nat (Z.to_nat (Qceiling x))))%Q).
  { eapply Qle_trans; [apply Qle_ceiling|].
    rewrite <- Zle_Qle. lia. }
  assert (Ex : (x == (currentTime w + 1 - t) * 5)%Q) by reflexivity.
  clearbody x. set (k := inject_Z _) in *. lra.
Qed.

(** An iteration that leaves the next note time where it was is followed by
    another one: the loop never ends. *)
Lemma scheduler_loop_stuck (fuel : nat) : forall e w,
  due e w = true ->
  num_add (nextNoteTime e) (num_div (literal 60) (bpm e)) = nextNoteTime e ->
  scheduler_loop fuel e w = None.
Proof.
  induction fuel as [|fuel IH]; intros e w Hdue Hsame.
  - unfold due in Hdue. cbn [scheduler_loop]. now rewrite Hdue.
  - rewrite (scheduler_loop_due _ _ _ Hdue). apply IH.
    + unfold due in *. rewrite scheduleNote_currentTime.
      cbn [nextNote nextNoteTime set_currentBeat set_nextNoteTime].
      now rewrite Hsame.
    + cbn [nextNote nextNoteTime bpm set_currentBeat set_nextNoteTime].
      now rewrite Hsame.
Qed.

Lemma start_stuck e w :
  num_ltb (num_add (Fin (currentTime w)) (literal (5 # 100)))
    (window_end (currentTime w)) = true ->
  num_add (num_add (Fin (currentTime w)) (literal (5 # 100)))
    (num_div (literal 60) (bpm e))
  = num_add (Fin (currentTime w)) (literal (5 # 100)) ->
  forall fuel, start fuel e w = None.
Proof.
  intros Hdue Hsame fuel. unfold start, scheduler.
  cbn [audioCtx set_nextNoteTime set_currentBeat]. rewrite initAudio_ctx.
  rewrite scheduler_loop_stuck; [reflexivity|exact Hdue|].
  cbn [nextNoteTime bpm set_nextNoteTime set_currentBeat].
  destruct (initAudio_frame e) as (_ & _ & F3 & _). rewrite F3. exact Hsame.
Qed.

Lemma scheduler_mono fuel fuel' e w r :
  scheduler fuel e w = Some r -> (fuel <= fuel')%nat ->
  scheduler fuel' e w = Some r.
Proof.
  unfold scheduler. intros H Hle. destruct (audioCtx e); [|exact H].
  destruct (scheduler_loop fuel e w) as [[e' w']|] eqn:E; [|discriminate].
  now rewrite (scheduler_loop_mono _ _ _ _ _ E Hle).
Qed.

Lemma step_mono fuel fuel' ev s r :
  step fuel ev s = Some r -> (fuel <= fuel')%nat -> step fuel' ev s = Some r.
Proof.
  destruct s as [e w]. destruct ev; cbn; intros H Hle; try exact H.
  - unfold start in *. eapply scheduler_mono; eauto.
  - unfold fireTimer in *. destruct (timers w !! h); [|exact H].
    destruct (task t); [|exact H]. eapply scheduler_mono; eauto.
Qed.

Lemma run_mono fuel fuel' evs : forall s r,
  run fuel evs s = Some r -> (fuel <= fuel')%nat -> run fuel' evs s = Some r.
Proof.
  induction evs as [|ev evs IH]; intros s r H Hle; cbn in *; [exact H|].
  destruct (step fuel ev s) as [s'|] eqn:E; [|discriminate].
  rewrite (step_mono _ _ _ _ _ E Hle). now apply IH.
Qed.

(** [setCustomSounds] touches the context, the two buffers and the console. *)
Lemma setCustomSounds_frame a b e w e' w' :
  setCustomSounds a b e w = (e', w') ->
  (nextNoteTime e' = nextNoteTime e /\ timerID e' = timerID e /\
   bpm e' = bpm e /\ beatsPerMeasure e' = beatsPerMeasure e /\
   currentBeat e' = currentBeat e /\ profile e' = profile e /\
   onBeat e' = onBeat e) /\
  (currentTime w' = currentTime w /\ timers w' = timers w /\
   rendered w' = rendered w /\ notified w' = notified w).
Proof.
  unfold setCustomSounds. rewrite initAudio_ctx.
  destruct (initAudio_frame e) as (F1 & F2 & F3 & F4 & F5 & F6 & F7 & _).
  unfold decodeBase64. cbn [audioCtx set_customAccentBuffer].
  rewrite initAudio_ctx.
  destruct (truthy a) as [da|]; [destruct (decodeAudioData da)|];
    (destruct (truthy b) as [db|]; [destruct (decodeAudioData db)|]);
    cbn; rewrite ?initAudio_ctx; cbn; intros [= <- <-]; cbn; auto 20.
Qed.

(** ** The clock and the trace along a run *)

(** A pass of the loop keeps the tempo and the clock, and adds to the
    trace. *)
Lemma scheduler_loop_frame fuel e w e' w' :
  scheduler_loop fuel e w = Some (e', w') ->
  bpm e' = bpm e /\ audioCtx e' = audioCtx e /\
  currentTime w' = currentTime w /\
  exists rest, rendered w' = rendered w ++ rest.
Proof.
  intros H.
  destruct (scheduler_loop_inv
              (fun e1 w1 => bpm e1 = bpm e /\ audioCtx e1 = audioCtx e /\
                            currentTime w1 = currentTime w /\
                            exists rest, rendered w1 = rendered w ++ rest))
    with (2 := H) as [HI _]; [| |exact HI].
  - intros e1 w1 (I1 & I2 & I3 & rest & I4) _.
    split; [exact I1|]. split; [exact I2|].
    split; [now rewrite scheduleNote_currentTime|].
    destruct (audioCtx e1) as [c|] eqn:Hc.
    + rewrite (scheduleNote_rendered _ _ _ _ _ Hc), I4, <- app_assoc. eauto.
    + unfold scheduleNote. rewrite Hc. eauto.
  - repeat split. exists []. now rewrite app_nil_r.
Qed.

Lemma scheduler_frame fuel e w e' w' :
  scheduler fuel e w = Some (e', w') ->
  bpm e' = bpm e /\ audioCtx e' = audioCtx e /\
  currentTime w' = currentTime w /\
  exists rest, rendered w' = rendered w ++ rest.
Proof.
  unfold scheduler. destruct (audioCtx e) eqn:Hc.
  - destruct (scheduler_loop fuel e w) as [[e1 w1]|] eqn:E; [|discriminate].
    unfold setTimeout. intros H. injection H as <- <-. cbn.
    apply scheduler_loop_frame in E as (F1 & F2 & F3 & F4).
    rewrite F2. auto.
  - intros [= <- <-]. repeat split; [exact Hc|]. exists [].
    now rewrite app_nil_r.
Qed.

(** The clock moves with [EvElapse] only; the trace only grows. *)
Lemma step_frame fuel ev (s s' : AudioEngine * World) :
  step fuel ev s = Some s' ->
  (currentTime (snd s') == currentTime (snd s) + elapsed [ev])%Q /\
  exists rest, rendered (snd s') = rendered (snd s) ++ rest.
Proof.
  destruct s as [e w], s' as [e' w'].
  destruct ev as [dt| | |b m p cb|a b|h]; cbn [step elapsed fst snd];
    intros Hstep.
  - injection Hstep as <- <-. cbn. split; [ring|]. exists [].
    now rewrite app_nil_r.
  - unfold start in Hstep. apply scheduler_frame in Hstep as (_ & _ & F & G).
    split; [rewrite F; ring|exact G].
  - unfold stop in Hstep.
    destruct (timerID e); injection Hstep as <- <-; cbn;
      (split; [ring|exists []; now rewrite app_nil_r]).
  - injection Hstep as <- <-. split; [ring|]. exists [].
    now rewrite app_nil_r.
  - destruct (setCustomSounds a b e w) as [e1 w1] eqn:E.
    injection Hstep as <- <-.
    apply setCustomSounds_frame in E as [_ (G1 & _ & G2 & _)].
    rewrite G1, G2. split; [ring|]. exists []. now rewrite app_nil_r.
  - unfold fireTimer in Hstep. destruct (timers w !! h) as [tm|].
    2:{ injection Hstep as <- <-. split; [ring|]. exists [].
        now rewrite app_nil_r. }
    destruct (task tm).
    + apply scheduler_frame in Hstep as (_ & _ & F & G). cbn in F, G.
      split; [rewrite F; ring|exact G].
    + destruct (onBeat e); injection Hstep as <- <-; cbn;
        (split; [ring|exists []; now rewrite app_nil_r]).
Qed.

Lemma run_frame fuel evs : forall (s s' : AudioEngine * World),
  run fuel evs s = Some s' ->
  (currentTime (snd s') == currentTime (snd s) + elapsed evs)%Q /\
  exists rest, rendered (snd s') = rendered (snd s) ++ rest.
Proof.
  induction evs as [|ev evs IH]; intros s s' Hrun.
  - cbn in Hrun. injection Hrun as <-. cbn. split; [ring|]. exists [].
    now rewrite app_nil_r.
  - cbn [run] in Hrun.
    destruct (step fuel ev s) as [s1|] eqn:E; [|discriminate].
    apply step_frame in E as [F1 [r1 G1]].
    apply IH in Hrun as [F2 [r2 G2]].
    split.
    + rewrite F2, F1. destruct ev; cbn [elapsed]; ring.
    + exists (r1 ++ r2). now rewrite G2, G1, app_assoc.
Qed.

Lemma elapsed_nonneg (T : Q) evs :
  Forall (held_constant T) evs -> (0 <= elapsed evs)%Q.
Proof.
  induction 1 as [|ev evs Hev _ IH]; cbn; [lra|].
  destruct ev; cbn in Hev; try exact IH. lra.
Qed.

(** ** Note streams *)

Lemma Chain_length s b0 t0 l b t :
  Chain s b0 t0 l b t -> b = b0 + Z.of_nat (length l).
Proof.
  induction 1 as [|l b t r _ IH Hb Ht]; cbn; [lia|].
  rewrite length_app. cbn. lia.
Qed.

Lemma Chain_lookup_beat s b0 t0 l b t :
  Chain s b0 t0 l b t ->
  forall (i : nat) r, l !! i = Some r -> r_beat r = b0 + Z.of_nat i.
Proof.
  induction 1 as [|l b t r Hc IH Hb Ht]; intros i r' Hi.
  - discriminate.
  - apply lookup_snoc_Some in Hi as [[_ Hi]|[-> <-]]; [eauto|].
    rewrite Hb. now apply Chain_length in Hc.
Qed.

Lemma Chain_last s b0 t0 l r b t :
  Chain s b0 t0 (l ++ [r]) b t ->
  t = num_add (r_time r) s /\ b = r_beat r + 1.
Proof.
  intros H. inversion H as [E|l' b' t' r' Hc Hb Ht E].
  - destruct l; discriminate.
  - apply app_inj_tail in E as [-> ->]. subst. auto.
Qed.

Lemma Chain_lookup_step s b0 t0 l b t :
  Chain s b0 t0 l b t ->
  forall (i : nat) r1 r2, l !! i = Some r1 -> l !! S i = Some r2 ->
  r_beat r2 = r_beat r1 + 1 /\ r_time r2 = num_add (r_time r1) s.
Proof.
  induction 1 as [|l b t r Hc IH Hb Ht]; intros i r1 r2 H1 H2.
  - discriminate.
  - apply lookup_snoc_Some in H2 as [[_ H2]|[E <-]].
    + apply lookup_snoc_Some in H1 as [[_ H1]|[-> _]]; [eauto|].
      apply lookup_lt_Some in H2. lia.
    + apply lookup_snoc_Some in H1 as [[_ H1]|[E' _]]; [|lia].
      assert (Hl : l = take i l ++ [r1]).
      { rewrite <- (take_drop (S i) l) at 1.
        rewrite drop_ge by lia. rewrite app_nil_r.
        now apply take_S_r. }
      rewrite Hl in Hc. apply Chain_last in Hc as [-> ->].
      split; [exact Hb|exact Ht].
Qed.

Lemma Chain_first s b0 t0 l b t :
  Chain s b0 t0 l b t ->
  forall r, l !! 0%nat = Some r -> r_beat r = b0 /\ r_time r = t0.
Proof.
  induction 1 as [|l b t r Hc IH Hb Ht]; intros r' H0.
  - discriminate.
  - destruct l as [|x l].
    + cbn in H0. injection H0 as <-. inversion Hc; subst.
      * auto.
      * destruct l; discriminate.
    + apply IH. exact H0.
Qed.

(** Two consecutive notes of a stream lie one interval apart, up to
    rounding. *)
Lemma Chain_interval (T : Q) b0 t0 l b t :
  (1 <= T)%Q -> (T <= 240)%Q ->
  Chain (num_div (literal 60) (Fin T)) b0 t0 l b t -> Forall timed l ->
  forall (i : nat) r1 r2, l !! i = Some r1 -> l !! S i = Some r2 ->
  r_beat r2 = r_beat r1 + 1 /\
  r_time r2 = num_add (r_time r1) (num_div (literal 60) (Fin T)) /\
  exists t1 t2,
    r_time r1 = Fin t1 /\ r_time r2 = Fin t2 /\
    (Qabs (t2 - t1 - 60 / T) <= tolerance)%Q.
Proof.
  intros Hlo Hhi Hc Hall i r1 r2 H1 H2.
  destruct (Chain_lookup_step _ _ _ _ _ _ Hc i r1 r2 H1 H2) as [Hbeat Htime].
  split; [exact Hbeat|]. split; [exact Htime|].
  rewrite Forall_forall in Hall.
  destruct (Hall r1) as (t1 & Ht1 & H0 & Hmax);
    [eapply list_elem_of_lookup_2; exact H1|].
  rewrite Ht1 in Htime.
  destruct (interval_near T t1 Hlo Hhi H0 Hmax) as (t2 & Ht2 & Hnear & _).
  exists t1, t2. split; [exact Ht1|]. split; [congruence|exact Hnear].
Qed.

(** ** Runs at a constant tempo *)

Lemma Steady_frame T base b0 t0 e w e' w' :
  Steady T base b0 t0 (e, w) ->
  bpm e' = bpm e -> currentBeat e' = currentBeat e ->
  nextNoteTime e' = nextNoteTime e -> rendered w' = rendered w ->
  clock_ok (currentTime w') ->
  Steady T base b0 t0 (e', w').
Proof.
  intros (Hb & _ & new & b & t & Hr & Hc & Hall & Hcb & Hn & H0) E1 E2 E3 E4 E5.
  split; cbn in *; [congruence|]. split; [exact E5|].
  exists new, b, t. repeat split; try congruence; assumption.
Qed.

Lemma Steady_body T base b0 t0 c e w :
  (1 <= T)%Q -> (T <= 240)%Q -> audioCtx e = Some c ->
  Steady T base b0 t0 (e, w) -> due e w = true ->
  Steady T base b0 t0
    (nextNote e, scheduleNote e (currentBeat e) (nextNoteTime e) w).
Proof.
  intros Hlo Hhi Hctx (Hb & Hclk & new & b & t & Hr & Hc & Hall & Hcb & Hn & H0)
    Hdue.
  cbn [fst snd] in *.
  destruct (nextNote_advance e w T t Hb Hlo Hhi Hclk Hn H0 Hdue)
    as (t' & Ht' & _ & Hadv).
  pose proof (due_before_window_end e w t Hclk Hn Hdue) as Hlt.
  split; [exact Hb|].
  split; [cbn [snd]; now rewrite scheduleNote_currentTime|].
  eexists (new ++ [_]), (b + 1), t'. cbn [fst snd].
  rewrite (scheduleNote_rendered _ _ _ _ _ Hctx), Hr, <- app_assoc.
  split; [reflexivity|]. split; [|split; [|split; [|split]]].
  - rewrite <- Ht'.
    cbn [nextNote nextNoteTime set_currentBeat set_nextNoteTime].
    rewrite Hn, Hb. apply Chain_snoc; [exact Hc|exact Hcb|reflexivity].
  - apply Forall_app. split; [exact Hall|]. apply Forall_singleton.
    exists t. cbn. split; [exact Hn|]. destruct Hclk as [_ Hclk].
    split; lra.
  - cbn. now rewrite Hcb.
  - exact Ht'.
  - lra.
Qed.

Lemma scheduler_Steady T base b0 t0 e w :
  (1 <= T)%Q -> (T <= 240)%Q -> Steady T base b0 t0 (e, w) ->
  exists fuel s', scheduler fuel e w = Some s' /\ Steady T base b0 t0 s'.
Proof.
  intros Hlo Hhi HS. unfold scheduler.
  destruct (audioCtx e) as [c|] eqn:Hctx; [|exists O; eauto].
  destruct HS as (Hb & Hclk & new & b & t & Hr & Hc & Hall & Hcb & Hn & H0).
  cbn [fst snd] in *.
  destruct (scheduler_loop_terminates e w T t Hb Hlo Hhi Hclk Hn H0)
    as (fuel & [e' w'] & Hloop).
  exists fuel. rewrite Hloop. cbn. eexists. split; [reflexivity|].
  destruct (scheduler_loop_inv
              (fun e w => audioCtx e = Some c /\ Steady T base b0 t0 (e, w)))
    with (2 := Hloop) as [[_ HS'] _].
  - intros e1 w1 [H1 H2] Hdue. split; [exact H1|].
    now apply (Steady_body T base b0 t0 c).
  - split; [exact Hctx|]. split; [exact Hb|]. split; [exact Hclk|].
    exists new, b, t. auto 10.
  - eapply Steady_frame; [exact HS'|reflexivity..|].
    destruct HS' as (_ & Hclk' & _). exact Hclk'.
Qed.

Lemma step_Steady T base b0 t0 ev (s : AudioEngine * World) :
  (1 <= T)%Q -> (T <= 240)%Q -> held_constant T ev ->
  (currentTime (snd s) + elapsed [ev] <= clock_max)%Q ->
  Steady T base b0 t0 s ->
  exists fuel s', step fuel ev s = Some s' /\ Steady T base b0 t0 s'.
Proof.
  intros Hlo Hhi Hev Hmax HS. destruct s as [e w].
  assert (Hclk : clock_ok (currentTime w)) by (destruct HS as (_ & H & _); exact H).
  destruct ev as [dt| | |b m p cb|a b|h]; cbn in Hev, Hmax;
    try contradiction.
  - exists O. eexists. split; [reflexivity|].
    eapply Steady_frame; [exact HS|reflexivity..|].
    cbn. destruct Hclk as [Hclk _]. split; lra.
  - exists O. eexists. split; [reflexivity|].
    destruct HS as (_ & HS). split; [exact Hev|exact HS].
  - exists O. cbn. destruct (setCustomSounds a b e w) as [e' w'] eqn:E.
    eexists. split; [reflexivity|].
    apply setCustomSounds_frame in E
      as [(F1 & _ & F3 & _ & F5 & _) (G1 & _ & G & _)].
    eapply Steady_frame; [exact HS|try assumption..]. now rewrite G1.
  - cbn. unfold fireTimer. destruct (timers w !! h) as [tm|]; [|exists O; eauto].
    destruct (task tm) as [|beat].
    + apply scheduler_Steady; [exact Hlo|exact Hhi|].
      eapply Steady_frame; [exact HS|reflexivity..|exact Hclk].
    + exists O. destruct (onBeat e); (eexists; split; [reflexivity|]);
        (eapply Steady_frame; [exact HS|reflexivity..|exact Hclk]).
Qed.

Lemma run_Steady T base b0 t0 evs : forall (s : AudioEngine * World),
  (1 <= T)%Q -> (T <= 240)%Q -> Forall (held_constant T) evs ->
  (currentTime (snd s) + elapsed evs <= clock_max)%Q ->
  Steady T base b0 t0 s ->
  exists fuel s', run fuel evs s = Some s' /\ Steady T base b0 t0 s'.
Proof.
  induction evs as [|ev evs IH]; intros s Hlo Hhi Hevs Hmax HS.
  - exists O. cbn. eauto.
  - inversion Hevs as [|? ? Hev Hevs']; subst.
    pose proof (elapsed_nonneg T evs Hevs') as Hpos.
    assert (E : (elapsed (ev :: evs) == elapsed [ev] + elapsed evs)%Q)
      by (destruct ev; cbn [elapsed]; ring).
    destruct (step_Steady T base b0 t0 ev s Hlo Hhi Hev) as (f1 & s1 & E1 & HS1);
      [lra|exact HS|].
    pose proof (step_frame _ _ _ _ E1) as [Hclk _].
    destruct (IH s1 Hlo Hhi Hevs') as (f2 & s2 & E2 & HS2); [lra|exact HS1|].
    exists (f1 `max` f2)%nat, s2. split; [|exact HS2]. cbn.
    rewrite (step_mono _ (f1 `max` f2)%nat _ _ _ E1) by lia.
    apply (run_mono f2); [exact E2|lia].
Qed.

(** [start] renders beat 0 at once, for 50 ms after the clock reading. *)
Lemma start_first_note fuel e w e' w' :
  clock_ok (currentTime w) -> start fuel e w = Some (e', w') ->
  exists r rest,
    rendered w' = rendered w ++ r :: rest /\
    r_beat r = 0 /\ r_clock r = currentTime w /\
    r_time r = num_add (Fin (currentTime w)) (literal (5 # 100)) /\
    r_accent r = isAccent 0 (beatsPerMeasure e) /\
    r_sound r = renderSound (initAudio e) (isAccent 0 (beatsPerMeasure e)).
Proof.
  intros Hclk. unfold start, scheduler.
  cbn [audioCtx set_nextNoteTime set_currentBeat].
  rewrite initAudio_ctx.
  set (e3 := set_nextNoteTime _ _).
  destruct (scheduler_loop fuel e3 w) as [[e1 w1]|] eqn:E; [|discriminate].
  unfold setTimeout. intros H. injection H as <- <-. cbn [rendered set_timers].
  assert (Hdue : due e3 w = true).
  { unfold due. cbn [e3 nextNoteTime set_nextNoteTime].
    destruct (start_time_near _ Hclk) as (t & -> & Ht).
    destruct (window_end_near _ Hclk) as (L & HL & HLb).
    unfold window_end in HL. rewrite HL. cbn. apply Qltb_true.
    unfold tolerance in *. lra. }
  destruct fuel as [|fuel].
  { unfold due in Hdue. cbn [scheduler_loop] in E. rewrite Hdue in E.
    clear -E. discriminate E. }
  rewrite (scheduler_loop_due _ _ _ Hdue) in E.
  apply scheduler_loop_frame in E as (_ & _ & _ & rest & Hr).
  rewrite (scheduleNote_rendered e3 running) in Hr by apply initAudio_ctx.
  rewrite <- app_assoc in Hr. eexists _, rest. split; [exact Hr|].
  destruct (initAudio_frame e) as (_ & _ & _ & F4 & _).
  cbn. rewrite F4. repeat split.
Qed.

Lemma start_Steady e w (T : Q) :
  (1 <= T)%Q -> (T <= 240)%Q -> bpm e = Fin T -> clock_ok (currentTime w) ->
  exists fuel s',
    start fuel e w = Some s' /\
    Steady T (rendered w) 0
      (num_add (Fin (currentTime w)) (literal (5 # 100))) s'.
Proof.
  intros Hlo Hhi Hb Hclk. unfold start.
  destruct (start_time_near _ Hclk) as (t & Ht & Hnear).
  apply scheduler_Steady; [exact Hlo|exact Hhi|].
  destruct (initAudio_frame e) as (_ & _ & F3 & _).
  split; cbn [fst snd bpm nextNoteTime currentBeat set_nextNoteTime
                set_currentBeat]; [congruence|].
  split; [exact Hclk|]. exists [], 0, t.
  rewrite app_nil_r, Ht. repeat split; [constructor|constructor|].
  destruct Hclk as [Hclk _]. unfold tolerance in Hnear. lra.
Qed.

(** A run that begins with [start] at a constant tempo of the dial. *)
Lemma started_run_Steady (T : Q) evs e w :
  (1 <= T)%Q -> (T <= 240)%Q -> bpm e = Fin T ->
  Forall (held_constant T) evs ->
  (0 <= currentTime w)%Q -> (currentTime w + elapsed evs <= clock_max)%Q ->
  exists fuel e' w' notes b t,
    run fuel (EvStart :: evs) (e, w) = Some (e', w') /\
    bpm e' = Fin T /\ clock_ok (currentTime w') /\
    (currentTime w' == currentTime w + elapsed evs)%Q /\
    rendered w' = rendered w ++ notes /\ notes <> [] /\
    Chain (num_div (literal 60) (Fin T)) 0
      (num_add (Fin (currentTime w)) (literal (5 # 100))) notes b (Fin t) /\
    Forall timed notes /\
    currentBeat e' = b /\ nextNoteTime e' = Fin t /\ (0 <= t)%Q.
Proof.
  intros Hlo Hhi Hb Hevs H0 Hmax.
  pose proof (elapsed_nonneg T evs Hevs) as Hpos.
  assert (Hclk : clock_ok (currentTime w)) by (split; lra).
  destruct (start_Steady e w T Hlo Hhi Hb Hclk) as (f1 & [e1 w1] & E1 & HS1).
  pose proof (start_first_note _ _ _ _ _ Hclk E1) as (r & rest & Hfirst & _).
  pose proof (step_frame f1 EvStart (e, w) (e1, w1) E1) as [Hc1 _].
  cbn [fst snd elapsed] in Hc1.
  destruct (run_Steady T (rendered w) 0
              (num_add (Fin (currentTime w)) (literal (5 # 100)))
              evs (e1, w1) Hlo Hhi Hevs) as
    (f2 & [e' w'] & E2 & Hb' & Hclk' & notes & b & t & Hr & Hc & Hall & Hcb
       & Hn & Ht0); [cbn; lra|exact HS1|].
  destruct (run_frame _ _ _ _ E2) as [Hc2 [more Hmore]].
  cbn [fst snd] in *.
  exists (f1 `max` f2)%nat, e', w', notes, b, t.
  split; [|split; [exact Hb'|split; [exact Hclk'|split; [lra|split;
    [exact Hr|split; [|auto 10]]]]]].
  - cbn [run].
    rewrite (step_mono f1 _ EvStart (e, w) (e1, w1)) by (exact E1 || lia).
    apply (run_mono f2); [exact E2|lia].
  - intros ->. rewrite app_nil_r in Hr. rewrite Hr, Hfirst in Hmore.
    rewrite <- app_assoc in Hmore.
    apply (f_equal length) in Hmore. rewrite !length_app in Hmore.
    cbn in Hmore. lia.
Qed.

(** ** Tempo held constant *)

(** C1 (amended).  In every run (a [start] followed by polls, clock
    advances and calls that keep the tempo) at a tempo [T] in [1, 240], with
    the clock below [2^31] seconds, notes are rendered; the [i]-th of them
    carries the beat index [i], so that indices start at 0 and grow by
    exactly 1 with none skipped or repeated, and the engine's beat counter
    is their number.  The target time of a note is that of its predecessor
    plus [60 / T], both the quotient and the sum rounded to binary64: the
    difference of the two times is [60 / T] up to [2^-19] seconds, and in
    general not exactly [60 / T]. *)
Theorem constant_tempo_run_spaced_up_to_rounding
    (T : Q) (evs : list Event) (e : AudioEngine) (w : World) :
  (1 <= T)%Q -> (T <= 240)%Q -> bpm e = Fin T ->
  Forall (held_constant T) evs ->
  (0 <= currentTime w)%Q -> (currentTime w + elapsed evs <= clock_max)%Q ->
  exists fuel e' w' notes,
    run fuel (EvStart :: evs) (e, w) = Some (e', w') /\
    rendered w' = rendered w ++ notes /\
    notes <> [] /\
    currentBeat e' = Z.of_nat (length notes) /\
    (forall r, last notes = Some r ->
       nextNoteTime e' = num_add (r_time r) (num_div (literal 60) (Fin T))) /\
    (forall r, notes !! 0%nat = Some r ->
       r_time r = num_add (Fin (currentTime w)) (literal (5 # 100))) /\
    (forall (i : nat) r, notes !! i = Some r -> r_beat r = Z.of_nat i) /\
    (forall (i : nat) r1 r2,
       notes !! i = Some r1 -> notes !! S i = Some r2 ->
       r_beat r2 = r_beat r1 + 1 /\
       r_time r2 = num_add (r_time r1) (num_div (literal 60) (Fin T)) /\
       exists t1 t2,
         r_time r1 = Fin t1 /\ r_time r2 = Fin t2 /\
         (Qabs (t2 - t1 - 60 / T) <= tolerance)%Q).
Proof.
  intros Hlo Hhi Hb Hevs H0 Hmax.
  destruct (started_run_Steady T evs e w Hlo Hhi Hb Hevs H0 Hmax)
    as (fuel & e' & w' & notes & b & t & Hrun & _ & _ & _ & Hr & Hne & Hc
          & Hall & Hcb & Hn & _).
  exists fuel, e', w', notes.
  split; [exact Hrun|]. split; [exact Hr|]. split; [exact Hne|].
  split; [|split; [|split; [|split]]].
  - rewrite Hcb. apply Chain_length in Hc. lia.
  - intros r Hlast. apply last_Some in Hlast as [l ->].
    apply Chain_last in Hc as [Hc _]. congruence.
  - intros r Hr0. exact (proj2 (Chain_first _ _ _ _ _ _ Hc r Hr0)).
  - intros i r Hi. rewrite (Chain_lookup_beat _ _ _ _ _ _ Hc i r Hi). lia.
  - exact (Chain_interval T _ _ _ _ _ Hlo Hhi Hc Hall).
Qed.
(** ** Accents *)

Lemma isAccent_spec (k B : Z) :
  1 <= B -> (isAccent k B = true <-> k mod B = 0).
Proof.
  intros HB. unfold isAccent.
  destruct (Z.eqb_spec B 0) as [->|Hne]; [lia|].
  rewrite Z.eqb_eq, Z.rem_divide, Z.mod_divide by exact Hne. reflexivity.
Qed.

(** C2.  With [beatsPerMeasure] [B >= 1], the note that [scheduleNote]
    renders for the beat index [k] is flagged as an accent if and only if
    [k mod B = 0]. *)
Theorem accent_iff_multiple_of_measure
    (e : AudioEngine) (w : World) (c : ContextState) (k : Z) (t : number) :
  audioCtx e = Some c -> 1 <= beatsPerMeasure e ->
  (isAccent k (beatsPerMeasure e) = true <-> k mod beatsPerMeasure e = 0) /\
  exists r,
    rendered (scheduleNote e k t w) = rendered w ++ [r] /\
    r_beat r = k /\
    (r_accent r = true <-> k mod beatsPerMeasure e = 0).
Proof.
  intros Hc HB. split; [now apply isAccent_spec|].
  eexists. split; [apply (scheduleNote_rendered _ _ _ _ _ Hc)|].
  cbn. split; [reflexivity|]. now apply isAccent_spec.
Qed.

(** ** The Custom profile *)

(** C7.  Under the Custom profile a beat plays the buffer of its kind
    (the accent buffer for an accent, the beat buffer otherwise) when that
    buffer is present; when it is absent the beat is rendered by
    [playDigital], with the tone the Digital profile gives it, and is not
    silent. *)
Theorem custom_profile_plays_buffer_or_digital
    (e : AudioEngine) (w : World) (c : ContextState) (k : Z) (t : number) :
  audioCtx e = Some c -> profile e = CUSTOM ->
  exists r,
    rendered (scheduleNote e k t w) = rendered w ++ [r] /\
    r_beat r = k /\ r_time r = t /\
    r_accent r = isAccent k (beatsPerMeasure e) /\
    (forall buf,
       (if r_accent r then customAccentBuffer e else customBeatBuffer e)
         = Some buf ->
       r_sound r = BufferPlayback buf) /\
    ((if r_accent r then customAccentBuffer e else customBeatBuffer e) = None ->
       r_sound r = DigitalTone (if r_accent r then 1000 else 600) /\
       r_sound r = playDigital e (r_accent r) /\
       r_sound r <> Silence).
Proof.
  intros Hc Hp. eexists.
  split; [apply (scheduleNote_rendered _ _ _ _ _ Hc)|]. cbn.
  repeat (split; [reflexivity|]).
  unfold renderSound, playDigital. rewrite Hp, Hc.
  split.
  - intros buf Hbuf. now rewrite Hbuf.
  - intros Hnone. rewrite Hnone. repeat split. discriminate.
Qed.

(** ** Decoding custom sounds *)

(** C8.  A [setCustomSounds] call always returns a state (the model has no
    raising path: the [catch] of [decodeBase64] absorbs the failure).  When
    the decoding of a supplied datum fails, the failure is on the console,
    the buffer of that datum is [null] afterwards, and under the Custom
    profile the beats that need it get the Digital tone. *)
Theorem decode_failure_clears_buffer
    (accentData beatData : option string) (e e' : AudioEngine) (w w' : World) :
  setCustomSounds accentData beatData e w = (e', w') ->
  (forall d, truthy accentData = Some d -> decodeAudioData d = None ->
     customAccentBuffer e' = None /\
     decode_failure_message ∈ console w' /\
     (profile e' = CUSTOM -> renderSound e' true = DigitalTone 1000)) /\
  (forall d, truthy beatData = Some d -> decodeAudioData d = None ->
     customBeatBuffer e' = None /\
     decode_failure_message ∈ console w' /\
     (profile e' = CUSTOM -> renderSound e' false = DigitalTone 600)).
Proof.
  unfold setCustomSounds. rewrite initAudio_ctx.
  unfold decodeBase64. cbn [audioCtx set_customAccentBuffer].
  rewrite initAudio_ctx.
  intros H. split; intros d Hd Hfail; rewrite Hd in H.
  - rewrite Hfail in H.
    destruct (truthy beatData) as [db|];
      [destruct (decodeAudioData db)|]; cbn in H;
      rewrite ?initAudio_ctx in H; injection H as <- <-; cbn;
      (split; [reflexivity|]);
      (split; [unfold decode_failure_message; set_solver|]);
      intros Hp; unfold renderSound, playDigital; cbn; rewrite initAudio_ctx;
      cbn in Hp; rewrite Hp; reflexivity.
  - destruct (truthy accentData) as [da|];
      [destruct (decodeAudioData da)|]; cbn in H;
      rewrite ?initAudio_ctx, ?Hfail in H; injection H as <- <-; cbn;
      (split; [reflexivity|]);
      (split; [unfold decode_failure_message; set_solver|]);
      intros Hp; unfold renderSound, playDigital; cbn; rewrite initAudio_ctx;
      cbn in Hp; rewrite Hp; reflexivity.
Qed.

(** ** Termination of a poll *)

Lemma scheduler_terminates e w (T t : Q) :
  bpm e = Fin T -> (1 <= T)%Q -> (T <= 240)%Q ->
  clock_ok (currentTime w) -> nextNoteTime e = Fin t -> (0 <= t)%Q ->
  exists fuel r, scheduler fuel e w = Some r.
Proof.
  intros Hb Hlo Hhi Hc Ht H0. unfold scheduler.
  destruct (audioCtx e); [|exists O; eauto].
  destruct (scheduler_loop_terminates e w T t Hb Hlo Hhi Hc Ht H0)
    as (fuel & [e' w'] & H).
  exists fuel. rewrite H. cbn. eauto.
Qed.

(** C9 (amended).  With a stored tempo [T] on the dial, 1 to 240, and the
    clock below [2^31] seconds, the [while] loop of a poll ends after
    finitely many iterations, with the next note outside the window, so
    that every poll returns; each iteration moves [nextNoteTime] forward,
    by [60 / T] up to the rounding of the quotient and of the sum.
    [setParams] stores the tempo it is given without a check, so the range
    is a precondition the interface does not enforce.  A strictly positive
    tempo is not enough: the rounded sum must exceed [nextNoteTime]. *)
Theorem poll_loop_terminates_for_dial_tempo :
  (forall e w (T t : Q),
     bpm e = Fin T -> (1 <= T)%Q -> (T <= 240)%Q ->
     clock_ok (currentTime w) -> nextNoteTime e = Fin t -> (0 <= t)%Q ->
     (exists fuel r,
        scheduler_loop fuel e w = Some r /\ due (fst r) (snd r) = false /\
        forall fuel', (fuel <= fuel')%nat -> scheduler_loop fuel' e w = Some r) /\
     (exists fuel r, scheduler fuel e w = Some r) /\
     (due e w = true ->
        exists t',
          nextNoteTime (nextNote e) = Fin t' /\ (t < t')%Q /\
          (Qabs (t' - t - 60 / T) <= tolerance)%Q)) /\
  (forall b m p cb e, bpm (setParams b m p cb e) = b).
Proof.
  split; [|reflexivity].
  intros e w T t Hb Hlo Hhi Hc Ht H0. split; [|split].
  - destruct (scheduler_loop_terminates e w T t Hb Hlo Hhi Hc Ht H0)
      as (fuel & [e' w'] & H).
    exists fuel, (e', w'). split; [exact H|]. split.
    + now destruct (scheduler_loop_inv (fun _ _ => True)) with (2 := H).
    + intros fuel' Hle. now apply (scheduler_loop_mono fuel).
  - now apply (scheduler_terminates e w T t).
  - intros Hdue.
    destruct (nextNote_advance e w T t Hb Hlo Hhi Hc Ht H0 Hdue)
      as (t' & Ht' & Hnear & Hadv).
    exists t'. split; [exact Ht'|]. split; [lra|exact Hnear].
Qed.

(** ** What [stop] leaves alone *)

Lemma start_ignores_nextNoteTime fuel stale e w :
  start fuel (set_nextNoteTime stale e) w = start fuel e w.
Proof.
  unfold start. f_equal.
  unfold initAudio, set_nextNoteTime, set_currentBeat, set_audioCtx. cbn.
  destruct (audioCtx e) as [[]|] eqn:E; cbn; rewrite ?E; reflexivity.
Qed.

(** C10.  [stop] clears [timerID], cancelling the timer it named, and sets
    [currentBeat] to 0; the tempo, [beatsPerMeasure], the profile, the
    callback, both custom buffers and [nextNoteTime] keep their values, as
    does everything else in the host.  [start] assigns [nextNoteTime] before
    anything reads it: whatever value the field held, the result of [start]
    is the same. *)
Theorem stop_touches_only_timer_and_beat (e : AudioEngine) (w : World) :
  (timerID (fst (stop e w)) = None /\
   currentBeat (fst (stop e w)) = 0 /\
   timers (snd (stop e w)) =
     match timerID e with
     | Some h => delete h (timers w)
     | None => timers w
     end) /\
  (bpm (fst (stop e w)) = bpm e /\
   beatsPerMeasure (fst (stop e w)) = beatsPerMeasure e /\
   profile (fst (stop e w)) = profile e /\
   onBeat (fst (stop e w)) = onBeat e /\
   customAccentBuffer (fst (stop e w)) = customAccentBuffer e /\
   customBeatBuffer (fst (stop e w)) = customBeatBuffer e /\
   nextNoteTime (fst (stop e w)) = nextNoteTime e /\
   audioCtx (fst (stop e w)) = audioCtx e) /\
  (currentTime (snd (stop e w)) = currentTime w /\
   rendered (snd (stop e w)) = rendered w /\
   console (snd (stop e w)) = console w /\
   notified (snd (stop e w)) = notified w) /\
  (forall fuel stale,
     start fuel (set_nextNoteTime stale (fst (stop e w))) (snd (stop e w))
     = start fuel (fst (stop e w)) (snd (stop e w))).
Proof.
  unfold stop. split; [|split; [|split]].
  - destruct (timerID e) eqn:E; cbn; auto.
  - destruct (timerID e); cbn; auto 10.
  - destruct (timerID e); cbn; auto.
  - intros fuel stale. apply start_ignores_nextNoteTime.
Qed.

(** ** A tempo change in mid-run *)

(** C6 (amended).  A [setParams] call in mid-run leaves the notes already
    rendered as they are.  The first note scheduled after the call is the
    one whose index and target time the engine had already fixed: it comes
    the old interval after its predecessor.  Every later note comes the new
    interval after its predecessor.  An interval is [60 / T] with the
    quotient and the sum rounded to binary64, [60 / T] up to [2^-19]
    seconds; the tempos are on the dial and the clock is below [2^31]
    seconds. *)
Theorem tempo_change_applies_after_committed_note
    (T1 T2 : Q) (evs1 evs2 : list Event) (e : AudioEngine) (w : World)
    (m : Z) (p : SoundProfile) (cb : option Callback) :
  (1 <= T1)%Q -> (T1 <= 240)%Q -> (1 <= T2)%Q -> (T2 <= 240)%Q ->
  bpm e = Fin T1 ->
  Forall (held_constant T1) evs1 -> Forall (held_constant T2) evs2 ->
  (0 <= currentTime w)%Q ->
  (currentTime w + elapsed evs1 + elapsed evs2 <= clock_max)%Q ->
  exists fuel e1 w1 e2 w2 notes1 notes2 b1 t1,
    run fuel (EvStart :: evs1) (e, w) = Some (e1, w1) /\
    rendered w1 = rendered w ++ notes1 /\ notes1 <> [] /\
    currentBeat e1 = b1 /\ b1 = Z.of_nat (length notes1) /\
    nextNoteTime e1 = Fin t1 /\
    (forall r, last notes1 = Some r ->
       Fin t1 = num_add (r_time r) (num_div (literal 60) (Fin T1)) /\
       exists t,
         r_time r = Fin t /\ (Qabs (t1 - t - 60 / T1) <= tolerance)%Q) /\
    run fuel (EvSetParams (Fin T2) m p cb :: evs2) (e1, w1) = Some (e2, w2) /\
    rendered w2 = rendered w1 ++ notes2 /\
    currentBeat e2 = b1 + Z.of_nat (length notes2) /\
    (forall r, notes2 !! 0%nat = Some r -> r_beat r = b1 /\ r_time r = Fin t1) /\
    (forall (i : nat) r1 r2,
       notes2 !! i = Some r1 -> notes2 !! S i = Some r2 ->
       r_beat r2 = r_beat r1 + 1 /\
       r_time r2 = num_add (r_time r1) (num_div (literal 60) (Fin T2)) /\
       exists x1 x2,
         r_time r1 = Fin x1 /\ r_time r2 = Fin x2 /\
         (Qabs (x2 - x1 - 60 / T2) <= tolerance)%Q).
Proof.
  intros Hlo1 Hhi1 Hlo2 Hhi2 Hb Hevs1 Hevs2 H0 Hmax.
  pose proof (elapsed_nonneg T1 evs1 Hevs1) as Hpos1.
  pose proof (elapsed_nonneg T2 evs2 Hevs2) as Hpos2.
  destruct (started_run_Steady T1 evs1 e w Hlo1 Hhi1 Hb Hevs1 H0)
    as (f1 & e1 & w1 & notes1 & b1 & t1 & Hrun1 & _ & Hclk1 & Hc1 & Hr1 & Hne1
          & Hch1 & Hall1 & Hcb1 & Hn1 & Ht1); [lra|].
  assert (HS2 : Steady T2 (rendered w1) b1 (Fin t1)
                  (setParams (Fin T2) m p cb e1, w1)).
  { split; [reflexivity|]. split; [exact Hclk1|]. exists [], b1, t1.
    rewrite app_nil_r. repeat split; try assumption; constructor. }
  destruct (run_Steady T2 (rendered w1) b1 (Fin t1) evs2
              (setParams (Fin T2) m p cb e1, w1) Hlo2 Hhi2 Hevs2)
    as (f2 & [e2 w2] & E2 & _ & _ & notes2 & b2 & t2 & Hr2 & Hch2 & Hall2
          & Hcb2 & _); [cbn [fst snd]; lra|exact HS2|].
  cbn [fst snd] in *.
  exists (f1 `max` f2)%nat, e1, w1, e2, w2, notes1, notes2, b1, t1.
  split; [apply (run_mono f1); [exact Hrun1|lia]|].
  split; [exact Hr1|]. split; [exact Hne1|]. split; [exact Hcb1|].
  split; [rewrite <- Hcb1; apply Chain_length in Hch1; lia|].
  split; [exact Hn1|]. split; [|split; [|split; [exact Hr2|split; [|split]]]].
  - intros r Hlast. apply last_Some in Hlast as [l ->].
    pose proof (Chain_last _ _ _ _ _ _ _ Hch1) as [Hnext _].
    split; [exact Hnext|].
    apply Forall_app in Hall1 as [_ Hr].
    apply Forall_singleton in Hr as (t & Ht & Ht0 & Htmax).
    rewrite Ht in Hnext.
    destruct (interval_near T1 t Hlo1 Hhi1 Ht0 Htmax) as (t' & Ht' & Hnear & _).
    assert (t' = t1) by congruence. subst t'. eauto.
  - cbn [run step]. apply (run_mono f2); [exact E2|lia].
  - rewrite Hcb2. apply Chain_length in Hch2. lia.
  - intros r Hr0. exact (Chain_first _ _ _ _ _ _ Hch2 r Hr0).
  - exact (Chain_interval T2 _ _ _ _ _ Hlo2 Hhi2 Hch2 Hall2).
Qed.

(** ** Start and stop *)

Lemma poll_pending_clearTimeout h w h' :
  poll_pending (clearTimeout h w) h' -> h' <> h /\ poll_pending w h'.
Proof.
  intros (tm & Hl & Ht). cbn in Hl.
  apply lookup_delete_Some in Hl as [Hne Hl]. split; [congruence|].
  exists tm. auto.
Qed.

Lemma poll_pending_setTimeout tk d w h' :
  poll_pending (fst (setTimeout tk d w)) h' ->
  h' = snd (setTimeout tk d w) \/ poll_pending w h'.
Proof.
  intros (tm & Hl & Ht). cbn in *.
  apply lookup_insert_Some in Hl as [[<- _]|[_ Hl]]; [auto|].
  right. exists tm. auto.
Qed.

(** The loop arms no poll task. *)
Lemma scheduler_loop_polls fuel e w e' w' :
  scheduler_loop fuel e w = Some (e', w') ->
  timerID e' = timerID e /\
  forall h, poll_pending w' h -> poll_pending w h.
Proof.
  intros H.
  destruct (scheduler_loop_inv
              (fun e1 w1 => timerID e1 = timerID e /\
                            forall h, poll_pending w1 h -> poll_pending w h))
    with (2 := H) as [HI _]; [|auto|exact HI].
  intros e1 w1 [Ht Hp] _. split; [exact Ht|].
  intros h (tm & Hl & Htask). apply Hp.
  apply scheduleNote_timers in Hl as [Hl|Hn]; [|congruence].
  exists tm. auto.
Qed.

(** After a pass of [scheduler] a pending poll task is an older one or the
    one just armed, which [timerID] names. *)
Lemma scheduler_polls fuel e w e' w' :
  scheduler fuel e w = Some (e', w') ->
  forall h, poll_pending w' h -> poll_pending w h \/ timerID e' = Some h.
Proof.
  unfold scheduler. destruct (audioCtx e).
  - destruct (scheduler_loop fuel e w) as [[e1 w1]|] eqn:E; [|discriminate].
    unfold setTimeout. intros H h Hp. injection H as <- <-.
    apply (poll_pending_setTimeout PollTask lookahead w1) in Hp
      as [->|Hp]; [right; reflexivity|].
    left. now apply (scheduler_loop_polls _ _ _ _ _ E).
  - intros [= <- <-] h Hp. auto.
Qed.

Lemma step_Tidy fuel ev playing s s' :
  alternating playing [ev] -> Tidy playing s -> step fuel ev s = Some s' ->
  Tidy (playing_after playing [ev]) s'.
Proof.
  destruct s as [e w], s' as [e' w'].
  intros Halt [Hpoll Hstop] Hstep.
  destruct ev as [dt| | |b m p cb|a b|h]; cbn in *.
  - injection Hstep as <- <-. split; assumption.
  - destruct Halt as [-> _]. destruct (Hstop eq_refl) as [Hnone _].
    split; [|discriminate]. cbn.
    intros h Hp. unfold start in Hstep.
    destruct (scheduler_polls _ _ _ _ _ Hstep h Hp) as [Hold|Hnew]; [|exact Hnew].
    apply Hpoll in Hold. destruct (initAudio_frame e) as (_ & F & _).
    congruence.
  - unfold stop in Hstep.
    destruct (timerID e) as [h0|] eqn:Hid; injection Hstep as <- <-;
      (split; [|intros _; cbn; auto]); cbn; intros h Hp.
    + apply poll_pending_clearTimeout in Hp as [Hne Hp].
      apply Hpoll in Hp. congruence.
    + apply Hpoll in Hp. congruence.
  - injection Hstep as <- <-. split; assumption.
  - destruct (setCustomSounds a b e w) as [e1 w1] eqn:E.
    injection Hstep as <- <-.
    apply setCustomSounds_frame in E as [(_ & F2 & _ & _ & F5 & _) (_ & G & _)].
    split; cbn.
    + intros h (tm & Hl & Ht). rewrite F2. apply Hpoll. exists tm.
      rewrite <- G. auto.
    + rewrite F2, F5. exact Hstop.
  - unfold fireTimer in Hstep.
    destruct (timers w !! h) as [tm|] eqn:Hh.
    2:{ injection Hstep as <- <-. split; assumption. }
    destruct (task tm) as [|beat] eqn:Htask.
    + assert (Hid : timerID e = Some h) by (apply Hpoll; exists tm; auto).
      split; cbn.
      * intros h' Hp.
        destruct (scheduler_polls _ _ _ _ _ Hstep h' Hp) as [Hold|Hnew];
          [|exact Hnew].
        apply poll_pending_clearTimeout in Hold as [Hne Hold].
        apply Hpoll in Hold. cbn in Hold. congruence.
      * intros ->. destruct (Hstop eq_refl). congruence.
    + assert (He : e' = e) by (destruct (onBeat e); congruence).
      assert (Hw : timers w' = delete h (timers w))
        by (destruct (onBeat e); injection Hstep as <- <-; reflexivity).
      subst e'. split; cbn; [|exact Hstop].
      intros h' (tm' & Hl & Ht). rewrite Hw in Hl.
      apply lookup_delete_Some in Hl as [_ Hl]. apply Hpoll. exists tm'. auto.
Qed.

Lemma run_Tidy fuel evs : forall playing s s',
  alternating playing evs -> Tidy playing s -> run fuel evs s = Some s' ->
  Tidy (playing_after playing evs) s'.
Proof.
  induction evs as [|ev evs IH]; intros playing s s' Halt HT Hrun.
  - cbn in *. congruence.
  - cbn [run] in Hrun. destruct (step fuel ev s) as [s1|] eqn:E; [|discriminate].
    assert (H1 : alternating playing [ev] /\
                 alternating (playing_after playing [ev]) evs /\
                 playing_after playing (ev :: evs)
                   = playing_after (playing_after playing [ev]) evs).
    { destruct ev; cbn in *; try tauto. }
    destruct H1 as (Ha & Hb & ->).
    apply (IH _ s1); [exact Hb| |exact Hrun].
    now apply (step_Tidy fuel ev playing s).
Qed.

Lemma stop_when_stopped e w :
  timerID e = None -> currentBeat e = 0 -> stop e w = (e, w).
Proof.
  intros Ht Hb. unfold stop. rewrite Ht. f_equal.
  destruct e; cbn in *. now subst.
Qed.

(** C4 (amended).  [start] has no guard of its own against a call while the
    scheduler is running.  In every run in which [start] is only called
    while stopped, at most one poll task is pending at any time, and it is
    the one [timerID] names.  [stop] while stopped returns the engine and
    the host exactly as they were. *)
Theorem alternating_run_has_one_poll_task
    (fuel : nat) (now : Q) (evs : list Event) (e' : AudioEngine) (w' : World) :
  alternating false evs ->
  run fuel evs (newAudioEngine, initialWorld now) = Some (e', w') ->
  (forall h1 h2, poll_pending w' h1 -> poll_pending w' h2 -> h1 = h2) /\
  (forall h, poll_pending w' h -> timerID e' = Some h) /\
  (playing_after false evs = false ->
     (forall h, ~ poll_pending w' h) /\ stop e' w' = (e', w')).
Proof.
  intros Halt Hrun.
  assert (H0 : Tidy false (newAudioEngine : AudioEngine, initialWorld now)).
  { split; [|auto]. intros h (tm & Hl & _). cbn in Hl.
    rewrite lookup_empty in Hl. discriminate. }
  destruct (run_Tidy fuel evs false _ _ Halt H0 Hrun) as [Hpoll Hstop].
  cbn [fst snd] in *. split; [|split].
  - intros h1 h2 H1 H2. apply Hpoll in H1, H2. congruence.
  - exact Hpoll.
  - intros Hp. destruct (Hstop Hp) as [Hnone Hbeat]. split.
    + intros h Hh. apply Hpoll in Hh. congruence.
    + now apply stop_when_stopped.
Qed.

(** ** Notes are scheduled ahead of the clock *)

(** One pass of the loop, entered with the next note ahead of the clock. *)
Lemma scheduler_loop_on_time fuel e w e' w' c (T t : Q) :
  scheduler_loop fuel e w = Some (e', w') ->
  audioCtx e = Some c -> bpm e = Fin T -> (1 <= T)%Q -> (T <= 240)%Q ->
  clock_ok (currentTime w) ->
  nextNoteTime e = Fin t -> (currentTime w < t)%Q ->
  Forall ahead (rendered w) ->
  Forall ahead (rendered w') /\ window_kept (currentTime w) e' /\
  exists t', nextNoteTime e' = Fin t' /\ (0 <= t')%Q.
Proof.
  intros Hloop Hctx Hb Hlo Hhi Hclk Ht Hlt Hall.
  destruct (scheduler_loop_inv
              (fun e1 w1 =>
                 audioCtx e1 = Some c /\ bpm e1 = Fin T /\
                 currentTime w1 = currentTime w /\
                 (exists t1, nextNoteTime e1 = Fin t1 /\
                             (currentTime w < t1)%Q) /\
                 Forall ahead (rendered w1)))
    with (2 := Hloop) as [(_ & _ & H3 & (t' & Ht' & Hlt') & H5) Hexit].
  - intros e1 w1 (I1 & I2 & I3 & (t1 & Ht1 & Hlt1) & I5) Hdue.
    assert (Hclk1 : clock_ok (currentTime w1)) by now rewrite I3.
    assert (H0 : (0 <= t1)%Q) by (destruct Hclk; lra).
    destruct (nextNote_advance e1 w1 T t1 I2 Hlo Hhi Hclk1 Ht1 H0 Hdue)
      as (t2 & Ht2 & _ & Hadv).
    split; [exact I1|]. split; [exact I2|].
    split; [now rewrite scheduleNote_currentTime|]. split.
    + exists t2. split; [exact Ht2|lra].
    + rewrite (scheduleNote_rendered _ _ _ _ _ I1).
      apply Forall_app. split; [exact I5|].
      apply Forall_singleton. exists t1. cbn. split; [exact Ht1|].
      now rewrite I3.
  - split; [exact Hctx|]. split; [exact Hb|]. split; [reflexivity|].
    split; [eauto|exact Hall].
  - split; [exact H5|]. split.
    + unfold window_kept, window_end. unfold due in Hexit.
      now rewrite H3 in Hexit.
    + exists t'. split; [exact Ht'|]. destruct Hclk. lra.
Qed.

Lemma scheduler_on_time fuel e w e' w' c (T t : Q) :
  scheduler fuel e w = Some (e', w') ->
  audioCtx e = Some c -> bpm e = Fin T -> (1 <= T)%Q -> (T <= 240)%Q ->
  clock_ok (currentTime w) ->
  nextNoteTime e = Fin t -> (currentTime w < t)%Q ->
  Forall ahead (rendered w) ->
  Forall ahead (rendered w') /\ window_kept (currentTime w) e' /\
  (exists t', nextNoteTime e' = Fin t' /\ (0 <= t')%Q) /\
  audioCtx e' = Some c /\ bpm e' = Fin T /\ currentTime w' = currentTime w.
Proof.
  intros H Hctx Hb Hlo Hhi Hclk Ht Hlt Hall.
  destruct (scheduler_frame _ _ _ _ _ H) as (F1 & F2 & F3 & _).
  unfold scheduler in H. rewrite Hctx in H.
  destruct (scheduler_loop fuel e w) as [[e1 w1]|] eqn:E; [|discriminate].
  unfold setTimeout in H. injection H as <- <-. cbn.
  destruct (scheduler_loop_on_time _ _ _ _ _ _ _ _ E Hctx Hb Hlo Hhi Hclk Ht
              Hlt Hall) as (H1 & H2 & H3).
  cbn in F1, F2, F3. repeat split; try assumption; congruence.
Qed.

Lemma setCustomSounds_ctx a b e w :
  audioCtx (fst (setCustomSounds a b e w)) = Some running.
Proof.
  unfold setCustomSounds. rewrite initAudio_ctx.
  unfold decodeBase64. cbn [audioCtx set_customAccentBuffer].
  rewrite initAudio_ctx.
  destruct (truthy a) as [da|]; [destruct (decodeAudioData da)|];
    (destruct (truthy b) as [db|]; [destruct (decodeAudioData db)|]);
    cbn; rewrite ?initAudio_ctx; cbn; rewrite ?initAudio_ctx; reflexivity.
Qed.

Lemma start_on_time fuel e w e' w' (T : Q) :
  start fuel e w = Some (e', w') ->
  bpm e = Fin T -> (1 <= T)%Q -> (T <= 240)%Q -> clock_ok (currentTime w) ->
  Forall ahead (rendered w) ->
  Forall ahead (rendered w') /\ window_kept (currentTime w) e' /\
  (exists t', nextNoteTime e' = Fin t' /\ (0 <= t')%Q) /\
  audioCtx e' = Some running /\ bpm e' = Fin T /\
  currentTime w' = currentTime w.
Proof.
  intros Hstart Hb Hlo Hhi Hclk Hall. unfold start in Hstart.
  destruct (start_time_near _ Hclk) as (t & Ht & Hnear).
  destruct (initAudio_frame e) as (_ & _ & F3 & _).
  eapply scheduler_on_time with (t := t) in Hstart; try eassumption.
  - apply initAudio_ctx.
  - cbn. congruence.
  - unfold tolerance in Hnear. lra.
Qed.

Lemma Timely_OnTime p (s : AudioEngine * World) : Timely p s -> OnTime p s.
Proof.
  induction 1 as [now Hnow|p e w dt _ IH Hdt Hmax|p e w fuel s' _ IH Hstart
                 |p e w _ IH|p e w b m pr cb _ IH Hb|p e w a b _ IH
                 |p e w h tm fuel s' _ IH Hh Htask Hwin Hfire
                 |p e w h tm beat fuel s' _ IH Hh Htask Hfire];
    unfold OnTime in *; cbn [fst snd] in *.
  - split; [constructor|].
    split; [exists 100%Q; split; [reflexivity|split; lra]|].
    split; [exact Hnow|]. split; [exists 0%Q; split; [reflexivity|lra]|].
    intros (h & tm & Hl & _). cbn in Hl. rewrite lookup_empty in Hl.
    discriminate.
  - destruct IH as (Hall & Hb & Hclk & Ht & Hpoll).
    split; [exact Hall|]. split; [exact Hb|].
    split; [destruct Hclk; split; cbn; lra|]. split; [exact Ht|exact Hpoll].
  - destruct IH as (Hall & (T & Hb & Hlo & Hhi) & Hclk & _).
    destruct s' as [e' w']. cbn [fst snd] in *.
    destruct (start_on_time _ _ _ _ _ T Hstart Hb Hlo Hhi Hclk Hall)
      as (H1 & H2 & H3 & H4 & H5 & H6).
    split; [exact H1|]. split; [exists T; auto|].
    split; [now rewrite H6|]. split; [exact H3|].
    intros _. split; [congruence|exact H2].
  - destruct IH as (Hall & Hb & Hclk & Ht & Hpoll). unfold stop.
    destruct (timerID e) as [h0|]; cbn [fst snd];
      (split; [exact Hall|]); (split; [exact Hb|]);
      (split; [exact Hclk|]); (split; [exact Ht|]).
    + intros (h & Hp). apply poll_pending_clearTimeout in Hp as [_ Hp].
      apply Hpoll. eauto.
    + exact Hpoll.
  - destruct IH as (Hall & _ & Hclk & Ht & Hpoll).
    split; [exact Hall|]. split; [exact Hb|]. split; [exact Hclk|].
    split; [exact Ht|exact Hpoll].
  - destruct IH as (Hall & Hb & Hclk & Ht & Hpoll).
    pose proof (setCustomSounds_ctx a b e w) as Hctx.
    destruct (setCustomSounds a b e w) as [e1 w1] eqn:E.
    apply setCustomSounds_frame in E
      as [(F1 & _ & F3 & _) (G0 & G1 & G2 & _)].
    cbn [fst snd] in *. rewrite G2, F3, G0, F1.
    split; [exact Hall|]. split; [exact Hb|]. split; [exact Hclk|].
    split; [exact Ht|].
    intros (h & tm & Hl & Htk). split; [congruence|].
    unfold window_kept. rewrite F1. apply Hpoll. exists h, tm.
    rewrite <- G1. auto.
  - destruct IH as (Hall & (T & Hb & Hlo & Hhi) & Hclk & (t & Ht & Ht0) & Hpoll).
    destruct s' as [e' w']. cbn [fst snd] in *.
    destruct Hpoll as [Hctx Hkept]; [exists h, tm; auto|].
    destruct (audioCtx e) as [c|] eqn:Ec; [|congruence].
    unfold fireTimer in Hfire. rewrite Hh, Htask in Hfire.
    unfold window_kept in Hkept. rewrite Ht in Hkept.
    pose proof (before_window_end _ _ _ Hwin Hkept) as Hlt.
    destruct (scheduler_on_time _ _ _ _ _ c T t Hfire Ec Hb Hlo Hhi Hclk Ht Hlt
                Hall) as (H1 & H2 & H3 & H4 & H5 & H6).
    cbn in H2, H6.
    split; [exact H1|]. split; [exists T; auto|].
    split; [now rewrite H6|]. split; [exact H3|].
    intros _. split; [congruence|exact H2].
  - destruct IH as (Hall & Hb & Hclk & Ht & Hpoll).
    destruct s' as [e' w']. cbn [fst snd] in *.
    unfold fireTimer in Hfire. rewrite Hh, Htask in Hfire.
    assert (He : e' = e) by (destruct (onBeat e); congruence).
    assert (Hw : timers w' = delete h (timers w) /\ rendered w' = rendered w
                 /\ currentTime w' = currentTime w)
      by (destruct (onBeat e); injection Hfire as <- <-; auto).
    destruct Hw as (Hw1 & Hw2 & Hw3). subst e'. rewrite Hw2, Hw3.
    split; [exact Hall|]. split; [exact Hb|]. split; [exact Hclk|].
    split; [exact Ht|].
    intros (h' & tm' & Hl & Htk). apply Hpoll. exists h', tm'.
    rewrite Hw1 in Hl. apply lookup_delete_Some in Hl as [_ Hl]. auto.
Qed.

(** In a timely state every engine call returns. *)
Lemma OnTime_start_returns p (s : AudioEngine * World) :
  OnTime p s -> exists fuel s', start fuel (fst s) (snd s) = Some s'.
Proof.
  destruct s as [e w]. intros (_ & (T & Hb & Hlo & Hhi) & Hclk & _).
  cbn [fst snd] in *. unfold start.
  destruct (start_time_near _ Hclk) as (t & Ht & Hnear).
  destruct (initAudio_frame e) as (_ & _ & F3 & _).
  apply (scheduler_terminates _ w T t); try assumption.
  - cbn. congruence.
  - destruct Hclk. unfold tolerance in Hnear. lra.
Qed.

Lemma OnTime_timer_returns p (s : AudioEngine * World) h :
  OnTime p s -> exists fuel s', fireTimer fuel h (fst s) (snd s) = Some s'.
Proof.
  destruct s as [e w].
  intros (_ & (T & Hb & Hlo & Hhi) & Hclk & (t & Ht & Ht0) & _).
  cbn [fst snd] in *. unfold fireTimer.
  destruct (timers w !! h) as [tm|]; [|exists O; eauto].
  destruct (task tm) as [|beat].
  - now apply (scheduler_terminates e _ T t).
  - exists O. destruct (onBeat e); eauto.
Qed.

(** C5 (amended).  In every state reached with the tempo on the dial, the
    clock below [2^31] seconds and each poll running before the clock
    reaches the end of the window of the previous pass of the scheduler,
    every note handed to the renderer has a target time strictly after the
    clock reading of the hand-over, and every [start] and every timer task
    returns, so that no note is handed over outside these states.  The
    first note of a run is for 50 ms after the clock reading, up to
    rounding; the later notes have no minimum margin.  A poll that runs no
    more than 99 ms after the previous pass is within that pass's window. *)
Theorem notes_are_scheduled_ahead_of_clock :
  (forall p (s : AudioEngine * World), Timely p s ->
     (forall r, r ∈ rendered (snd s) ->
        exists x, r_time r = Fin x /\ (r_clock r < x)%Q) /\
     (exists fuel s', start fuel (fst s) (snd s) = Some s') /\
     (forall h, exists fuel s', fireTimer fuel h (fst s) (snd s) = Some s')) /\
  (forall fuel e w e' w',
     clock_ok (currentTime w) -> start fuel e w = Some (e', w') ->
     exists r rest x,
       rendered w' = rendered w ++ r :: rest /\
       r_beat r = 0 /\ r_clock r = currentTime w /\
       r_time r = num_add (Fin (r_clock r)) (literal (5 # 100)) /\
       r_time r = Fin x /\
       (Qabs (x - r_clock r - (5 # 100)) <= tolerance)%Q) /\
  (forall p now : Q,
     clock_ok p -> (now - p <= 99 # 1000)%Q ->
     num_ltb (Fin now) (window_end p) = true).
Proof.
  split; [|split].
  - intros p s Ht. apply Timely_OnTime in Ht. split; [|split].
    + destruct Ht as [Hall _]. rewrite Forall_forall in Hall. exact Hall.
    + exact (OnTime_start_returns p s Ht).
    + intros h. exact (OnTime_timer_returns p s h Ht).
  - intros fuel e w e' w' Hclk H.
    apply start_first_note in H as (r & rest & H1 & H2 & H3 & H4 & _);
      [|exact Hclk].
    destruct (start_time_near _ Hclk) as (x & Hx & Hnear).
    exists r, rest, x. rewrite H3.
    split; [exact H1|]. split; [exact H2|]. split; [reflexivity|].
    split; [exact H4|]. split; [congruence|].
    unfold tolerance in *. apply Qabs_Qle_condition. split; lra.
  - intros p now Hclk Hgap.
    destruct (window_end_near _ Hclk) as (L & -> & HL). cbn.
    apply Qltb_true. unfold tolerance in HL. lra.
Qed.

End Properties.

(** * The properties on concrete runs *)

Ltac by_evaluation :=
  vm_compute;
  first [reflexivity | discriminate | intro; discriminate
        | let H := fresh in intros H; apply H; reflexivity].

(** The operations on [number] give what the operations of the Standard
    Library's IEEE 754 model give at 53 bits of precision, on the doubles
    60, 120, [1e20], 0.05, 0.1, 0.5 and 1.55, on a zero and on an
    infinity. *)
Example arithmetic_agrees_with_SpecFloat :
  let add := SFadd 53 1024 in
  let sub := SFsub 53 1024 in
  let div := SFdiv 53 1024 in
  let d60 := S754_finite false 8444249301319680 (-47) in
  let d120 := S754_finite false 8444249301319680 (-46) in
  let d1e20 := S754_finite false 6103515625000000 14 in
  let d005 := S754_finite false 7205759403792794 (-57) in
  let d01 := S754_finite false 7205759403792794 (-56) in
  let d05 := S754_finite false 4503599627370496 (-53) in
  let d155 := S754_finite false 6980579422424269 (-52) in
  of_spec d60 = literal 60 /\ of_spec d120 = Fin 120 /\
  of_spec d1e20 = Fin tempo_1e20 /\
  of_spec d005 = literal (5 # 100) /\ of_spec d01 = literal (1 # 10) /\
  of_spec (div d60 d120) = num_div (of_spec d60) (of_spec d120) /\
  of_spec (add d005 d05) = num_add (of_spec d005) (of_spec d05) /\
  of_spec (add d155 d05) = num_add (of_spec d155) (of_spec d05) /\
  of_spec (sub (add d155 d05) d155)
    = num_sub (num_add (of_spec d155) (of_spec d05)) (of_spec d155) /\
  of_spec (div d60 d1e20) = num_div (of_spec d60) (of_spec d1e20) /\
  of_spec (add d005 (div d60 d1e20))
    = num_add (of_spec d005) (num_div (of_spec d60) (of_spec d1e20)) /\
  of_spec (div d60 (S754_zero false)) = num_div (of_spec d60) (Fin 0) /\
  of_spec (div d60 (S754_infinity false)) = num_div (of_spec d60) PosInf /\
  of_spec (add d005 (S754_infinity false)) = num_add (of_spec d005) PosInf.
Proof. vm_compute. repeat split. Qed.

(** Tempo 60, 4 beats per measure, Digital: [start] renders beat 0 as an
    accent, for the double nearest to 0.05 s. *)
Example run_start_60 :
  notes_of (demo_run 1 [EvStart] (demo_engine 60 4 DIGITAL, demo_world))
  = [(0, literal (5 # 100), true, DigitalTone 1000)].
Proof. vm_compute. reflexivity. Qed.

(** ** C1 at tempo 120 *)

(** C1 (counterexample).  At tempo 120, with polls half a second apart, the
    notes are for 0.05, 0.55, 1.05, 1.55 and 2.05 s as doubles.  The target
    times of beat 3 and beat 4 do not differ by [60 / 120]: their exact
    difference is not one half, and their difference as the engine would
    compute it is 0.4999999999999998. *)
Lemma tempo_120_interval_is_not_exact :
  Forall (@held_constant nat 120) half_second_polls /\
  exists e' w' r0 r1 r2 r3 r4 t3 t4,
    demo_run 1 (EvStart :: half_second_polls)
      (demo_engine 120 4 DIGITAL, demo_world) = Some (e', w') /\
    rendered w' = [r0; r1; r2; r3; r4] /\
    r_beat r3 = 3 /\ r_beat r4 = 4 /\
    r_time r3 = Fin t3 /\ r_time r4 = Fin t4 /\
    ~ (t4 - t3 == 60 / 120)%Q /\
    num_sub (r_time r4) (r_time r3)
      = Fin (2251799813685247 # 4503599627370496) /\
    num_sub (r_time r4) (r_time r3) <> num_div (literal 60) (Fin 120).
Proof.
  split; [repeat constructor; by_evaluation|].
  eexists _, _, _, _, _, _, _, _, _.
  split; [vm_compute; reflexivity|].
  split; [vm_compute; reflexivity|].
  split; [reflexivity|]. split; [reflexivity|].
  split; [reflexivity|]. split; [reflexivity|].
  split; [by_evaluation|]. split; by_evaluation.
Qed.

Lemma constant_tempo_run_spaced_up_to_rounding_witness :
  (1 <= 120)%Q /\ (120 <= 240)%Q /\
  bpm (demo_engine 120 4 DIGITAL) = Fin 120 /\
  Forall (@held_constant nat 120) half_second_polls /\
  (0 <= currentTime demo_world)%Q /\
  (currentTime demo_world + elapsed half_second_polls <= clock_max)%Q /\
  exists fuel e' w' notes,
    demo_run fuel (EvStart :: half_second_polls)
      (demo_engine 120 4 DIGITAL, demo_world) = Some (e', w') /\
    rendered w' = rendered demo_world ++ notes /\
    notes <> [] /\
    currentBeat e' = Z.of_nat (length notes) /\
    (forall r, last notes = Some r ->
       nextNoteTime e' = num_add (r_time r) (num_div (literal 60) (Fin 120))) /\
    (forall r, notes !! 0%nat = Some r ->
       r_time r = num_add (Fin (currentTime demo_world)) (literal (5 # 100))) /\
    (forall (i : nat) r, notes !! i = Some r -> r_beat r = Z.of_nat i) /\
    (forall (i : nat) r1 r2,
       notes !! i = Some r1 -> notes !! S i = Some r2 ->
       r_beat r2 = r_beat r1 + 1 /\
       r_time r2 = num_add (r_time r1) (num_div (literal 60) (Fin 120)) /\
       exists t1 t2,
         r_time r1 = Fin t1 /\ r_time r2 = Fin t2 /\
         (Qabs (t2 - t1 - 60 / 120) <= tolerance)%Q).
Proof.
  assert (H1 : (1 <= 120)%Q) by lra.
  assert (H2 : (120 <= 240)%Q) by lra.
  assert (H3 : bpm (demo_engine 120 4 DIGITAL) = Fin 120) by reflexivity.
  assert (H4 : Forall (@held_constant nat 120) half_second_polls)
    by (repeat constructor; by_evaluation).
  assert (H5 : (0 <= currentTime demo_world)%Q) by by_evaluation.
  assert (H6 : (currentTime demo_world + elapsed half_second_polls
                <= clock_max)%Q) by by_evaluation.
  repeat (split; [assumption|]).
  exact (constant_tempo_run_spaced_up_to_rounding demo_decode 120
           half_second_polls (demo_engine 120 4 DIGITAL) demo_world
           H1 H2 H3 H4 H5 H6).
Defined.

Example run_120_two_beats :
  notes_of (demo_run 1 [EvStart; EvElapse (1 # 2); EvTimer 2]
              (demo_engine 120 4 DIGITAL, demo_world))
  = [(0, Fin (3602879701896397 # 72057594037927936), true, DigitalTone 1000);
     (1, Fin (2476979795053773 # 4503599627370496), false, DigitalTone 600)].
Proof. vm_compute. reflexivity. Qed.

(** ** C2 at beat 8 of a 4-beat measure *)

Lemma accent_iff_multiple_of_measure_witness :
  audioCtx (initAudio (demo_engine 120 4 DIGITAL)) = Some running /\
  1 <= beatsPerMeasure (initAudio (demo_engine 120 4 DIGITAL)) /\
  (isAccent 8 4 = true <-> 8 mod 4 = 0) /\
  exists r,
    rendered (scheduleNote (initAudio (demo_engine 120 4 DIGITAL)) 8 (Fin 4)
                demo_world)
      = rendered demo_world ++ [r] /\
    r_beat r = 8 /\ (r_accent r = true <-> 8 mod 4 = 0).
Proof.
  assert (H1 : audioCtx (initAudio (demo_engine 120 4 DIGITAL)) = Some running)
    by reflexivity.
  assert (H2 : 1 <= beatsPerMeasure (initAudio (demo_engine 120 4 DIGITAL)))
    by (vm_compute; discriminate).
  split; [exact H1|]. split; [exact H2|].
  exact (accent_iff_multiple_of_measure
           (initAudio (demo_engine 120 4 DIGITAL)) demo_world running 8 (Fin 4)
           H1 H2).
Defined.

(** ** C3: the sentinel 99999 *)

(** C3 (the code at the failing input).  With [beatsPerMeasure] 99999, the
    value the caller passes when accents are off, [0 % 99999 === 0] holds,
    and the first note of the run, beat 0, is rendered as an accent with
    the accent tone of the Digital profile. *)
Theorem accent_off_sentinel_accents_beat_0 :
  isAccent 0 99999 = true /\
  notes_of (demo_run 1 [EvSetParams 120 99999 DIGITAL (Some 0%nat); EvStart]
              (newAudioEngine, demo_world))
  = [(0, literal (5 # 100), true, DigitalTone 1000)].
Proof. split; vm_compute; reflexivity. Qed.

(** ** C4: a second [start] *)

(** C4 (counterexample).  Two [start] calls in a row leave two poll tasks
    pending, under the handles 2 and 4; each re-arms itself when it runs
    (handles 5 and 6 afterwards), and [stop] cancels only the one [timerID]
    names. *)
Lemma double_start_arms_two_poll_tasks :
  exists e1 w1 e2 w2,
    demo_run 1 [EvStart; EvStart] (demo_engine 120 4 DIGITAL, demo_world)
      = Some (e1, w1) /\
    poll_pending w1 2%positive /\ poll_pending w1 4%positive /\
    demo_run 1 [EvElapse (3 # 100); EvTimer 2; EvTimer 4] (e1, w1)
      = Some (e2, w2) /\
    poll_pending w2 5%positive /\ poll_pending w2 6%positive /\
    timerID (fst (stop e1 w1)) = None /\
    poll_pending (snd (stop e1 w1)) 2%positive.
Proof.
  eexists _, _, _, _. split; [vm_compute; reflexivity|].
  split; [eexists; split; vm_compute; reflexivity|].
  split; [eexists; split; vm_compute; reflexivity|].
  split; [vm_compute; reflexivity|].
  split; [eexists; split; vm_compute; reflexivity|].
  split; [eexists; split; vm_compute; reflexivity|].
  split; [vm_compute; reflexivity|].
  eexists; split; vm_compute; reflexivity.
Qed.

Lemma alternating_run_has_one_poll_task_witness :
  alternating false toggle_run /\
  match run demo_decode 1 toggle_run (newAudioEngine, initialWorld 0) with
  | Some (e', w') =>
      (forall h1 h2, poll_pending w' h1 -> poll_pending w' h2 -> h1 = h2) /\
      (forall h, poll_pending w' h -> timerID e' = Some h) /\
      (playing_after false toggle_run = false ->
       (forall h, ~ poll_pending w' h) /\ stop e' w' = (e', w'))
  | None => False
  end.
Proof.
  assert (Halt : alternating false toggle_run) by (cbn; auto).
  split; [exact Halt|].
  destruct (run demo_decode 1 toggle_run (newAudioEngine, initialWorld 0))
    as [[e' w']|] eqn:E.
  - exact (alternating_run_has_one_poll_task demo_decode 1 0 toggle_run e' w'
             Halt E).
  - vm_compute in E. discriminate.
Defined.

(** ** C5: polls at tempo 240 *)

(** C5 (counterexample).  At tempo 240 [start] at clock 0 renders beat 0 and
    fixes beat 1 for 0.3 s.  Three polls follow, each less than 100 ms
    later than the 25 ms it was armed for; the first two, at 0.102 s and at
    0.199 s, find beat 1 outside their window, and the third, at 0.3125 s,
    hands beat 1 to the renderer 12.5 ms after its target time. *)
Lemma late_polls_render_a_note_in_the_past :
  Forall (fun ev : @Event nat =>
            match ev with
            | EvElapse dt => (dt < (25 # 1000) + (100 # 1000))%Q
            | _ => True
            end) late_polls /\
  exists e' w' r0 r1 x,
    demo_run 1 (EvStart :: late_polls) (demo_engine 240 4 DIGITAL, demo_world)
      = Some (e', w') /\
    rendered w' = [r0; r1] /\ r_beat r1 = 1 /\
    r_time r1 = Fin x /\ (r_clock r1 == 80 # 256)%Q /\ (x < r_clock r1)%Q.
Proof.
  split; [repeat constructor; by_evaluation|].
  eexists _, _, _, _, _.
  split; [vm_compute; reflexivity|].
  split; [vm_compute; reflexivity|].
  split; [reflexivity|]. split; [reflexivity|].
  split; by_evaluation.
Qed.

(** [start] at clock 0, then three polls, each just inside the window of
    the pass before it; the third one, at 0.2996 s, renders beat 1 for
    0.3 s. *)
Lemma notes_are_scheduled_ahead_of_clock_witness :
  exists p s,
    @Timely string nat demo_decode p s /\
    demo_run 1 (EvSetParams 240 4 DIGITAL (Some 0%nat) :: EvStart :: tight_polls)
      (newAudioEngine, initialWorld 0) = Some s /\
    length (rendered (snd s)) = 2%nat /\
    (forall r, r ∈ rendered (snd s) ->
       exists x, r_time r = Fin x /\ (r_clock r < x)%Q) /\
    (exists fuel s', start fuel (fst s) (snd s) = Some s') /\
    (forall h, exists fuel s', fireTimer fuel h (fst s) (snd s) = Some s').
Proof.
  eassert (H : exists p s,
             @Timely string nat demo_decode p s /\
             demo_run 1 (EvSetParams 240 4 DIGITAL (Some 0%nat)
                           :: EvStart :: tight_polls)
               (newAudioEngine, initialWorld 0) = Some s /\
             length (rendered (snd s)) = 2%nat).
  { eexists _, (_, _). split; [|split; by_evaluation].
    eapply Timely_poll with (h := 4%positive) (fuel := 1%nat);
      [eapply Timely_elapse with (dt := 409 # 4096);
         [eapply Timely_poll with (h := 3%positive) (fuel := 1%nat);
            [eapply Timely_elapse with (dt := 409 # 4096);
               [eapply Timely_poll with (h := 2%positive) (fuel := 1%nat);
                  [eapply Timely_elapse with (dt := 409 # 4096);
                     [eapply Timely_start with (fuel := 1%nat);
                        [apply (Timely_setParams demo_decode 0 newAudioEngine
                                  (initialWorld 0) 240 4 DIGITAL (Some 0%nat));
                           [apply Timely_new; split; by_evaluation
                           |exists 240%Q; split; [reflexivity|];
                            split; by_evaluation]
                        |by_evaluation]
                     |by_evaluation..]
                  |by_evaluation..]
               |by_evaluation..]
            |by_evaluation..]
         |by_evaluation..]
      |by_evaluation..]. }
  destruct H as (p & s & Ht & Hrun & Hlen). exists p, s.
  split; [exact Ht|]. split; [exact Hrun|]. split; [exact Hlen|].
  exact (proj1 (notes_are_scheduled_ahead_of_clock demo_decode) p s Ht).
Defined.

(** The margin of a note after the first has no fixed size: in the run
    above beat 1 is handed over less than half a millisecond ahead. *)
Example timely_margin_can_be_small :
  match demo_run 1 (EvStart :: tight_polls)
          (demo_engine 240 4 DIGITAL, demo_world) with
  | Some (_, w) =>
      map (fun r => (r_beat r, r_time r, Qred (r_clock r))) (rendered w)
      = [(0, literal (5 # 100), 0%Q);
         (1, Fin (5404319552844595 # 18014398509481984), (1227 # 4096)%Q)]
  | None => False
  end /\
  (1227 # 4096 < 5404319552844595 # 18014398509481984)%Q /\
  ((5404319552844595 # 18014398509481984) - (1227 # 4096) < 1 # 2000)%Q.
Proof. split; [vm_compute; reflexivity|]. split; reflexivity. Qed.

(** ** C6: from tempo 60 to tempo 120 *)

(** C6 (counterexample).  [start] at tempo 60 renders beat 0 for 0.05 s;
    the tempo is then set to 120; the poll at 0.96875 s renders beat 1, the
    first note scheduled after the change, for 1.05 s: the old interval
    after its predecessor and not [60 / 120] seconds, whatever the
    rounding. *)
Lemma tempo_change_first_note_keeps_old_interval :
  exists e1 w1 e2 w2 r1 r2 t1 t2,
    demo_run 1 [EvStart] (demo_engine 60 4 DIGITAL, demo_world)
      = Some (e1, w1) /\
    rendered w1 = [r1] /\
    demo_run 1 [EvSetParams 120 4 DIGITAL (Some 0%nat); EvElapse (31 # 32);
                EvTimer 2] (e1, w1)
      = Some (e2, w2) /\
    rendered w2 = [r1; r2] /\
    r_beat r1 = 0 /\ r_beat r2 = 1 /\
    r_time r1 = Fin t1 /\ r_time r2 = Fin t2 /\
    r_time r2 = num_add (r_time r1) (num_div (literal 60) (Fin 60)) /\
    r_time r2 <> num_add (r_time r1) (num_div (literal 60) (Fin 120)) /\
    (Qabs (t2 - t1 - 60 / 60) <= tolerance)%Q /\
    ~ (Qabs (t2 - t1 - 60 / 120) <= tolerance)%Q.
Proof.
  eexists _, _, _, _, _, _, _, _.
  split; [vm_compute; reflexivity|].
  split; [vm_compute; reflexivity|].
  split; [vm_compute; reflexivity|].
  split; [vm_compute; reflexivity|].
  split; [reflexivity|]. split; [reflexivity|].
  split; [reflexivity|]. split; [reflexivity|].
  split; [by_evaluation|]. split; [by_evaluation|]. split; by_evaluation.
Qed.

(** Two polls after the change. *)
Lemma tempo_change_applies_after_committed_note_witness :
  (1 <= 60)%Q /\ (60 <= 240)%Q /\ (1 <= 120)%Q /\ (120 <= 240)%Q /\
  bpm (demo_engine 60 4 DIGITAL) = Fin 60 /\
  Forall (@held_constant nat 60) [] /\
  Forall (@held_constant nat 120)
    [EvElapse (31 # 32); EvTimer 2; EvElapse (1 # 2); EvTimer 4] /\
  (0 <= currentTime demo_world)%Q /\
  (currentTime demo_world + elapsed (@nil (@Event nat))
     + elapsed [@EvElapse nat (31 # 32); EvTimer 2; EvElapse (1 # 2); EvTimer 4]
   <= clock_max)%Q /\
  exists fuel e1 w1 e2 w2 notes1 notes2 b1 t1,
    run demo_decode fuel (EvStart :: []) (demo_engine 60 4 DIGITAL, demo_world)
      = Some (e1, w1) /\
    rendered w1 = rendered demo_world ++ notes1 /\ notes1 <> [] /\
    currentBeat e1 = b1 /\ b1 = Z.of_nat (length notes1) /\
    nextNoteTime e1 = Fin t1 /\
    (forall r, last notes1 = Some r ->
       Fin t1 = num_add (r_time r) (num_div (literal 60) (Fin 60)) /\
       exists t,
         r_time r = Fin t /\ (Qabs (t1 - t - 60 / 60) <= tolerance)%Q) /\
    run demo_decode fuel
      (EvSetParams (Fin 120) 4 DIGITAL (Some 0%nat)
         :: [EvElapse (31 # 32); EvTimer 2; EvElapse (1 # 2); EvTimer 4])
      (e1, w1)
      = Some (e2, w2) /\
    rendered w2 = rendered w1 ++ notes2 /\
    currentBeat e2 = b1 + Z.of_nat (length notes2) /\
    (forall r, notes2 !! 0%nat = Some r -> r_beat r = b1 /\ r_time r = Fin t1) /\
    (forall (i : nat) r1 r2,
       notes2 !! i = Some r1 -> notes2 !! S i = Some r2 ->
       r_beat r2 = r_beat r1 + 1 /\
       r_time r2 = num_add (r_time r1) (num_div (literal 60) (Fin 120)) /\
       exists x1 x2,
         r_time r1 = Fin x1 /\ r_time r2 = Fin x2 /\
         (Qabs (x2 - x1 - 60 / 120) <= tolerance)%Q).
Proof.
  assert (H1 : (1 <= 60)%Q) by lra.
  assert (H2 : (60 <= 240)%Q) by lra.
  assert (H3 : (1 <= 120)%Q) by lra.
  assert (H4 : (120 <= 240)%Q) by lra.
  assert (H5 : bpm (demo_engine 60 4 DIGITAL) = Fin 60) by reflexivity.
  assert (H6 : Forall (@held_constant nat 60) []) by constructor.
  assert (H7 : Forall (@held_constant nat 120)
                 [EvElapse (31 # 32); EvTimer 2; EvElapse (1 # 2); EvTimer 4])
    by (repeat constructor; by_evaluation).
  assert (H8 : (0 <= currentTime demo_world)%Q) by by_evaluation.
  assert (H9 : (currentTime demo_world + elapsed (@nil (@Event nat))
                + elapsed [@EvElapse nat (31 # 32); EvTimer 2;
                           EvElapse (1 # 2); EvTimer 4]
                <= clock_max)%Q) by by_evaluation.
  repeat (split; [assumption|]).
  exact (tempo_change_applies_after_committed_note demo_decode 60 120 []
           [EvElapse (31 # 32); EvTimer 2; EvElapse (1 # 2); EvTimer 4]
           (demo_engine 60 4 DIGITAL) demo_world 4 DIGITAL (Some 0%nat)
           H1 H2 H3 H4 H5 H6 H7 H8 H9).
Defined.

(** The notes of that run: beat 1 one second after beat 0, beat 2 half a
    second after beat 1. *)
Example run_60_then_120 :
  notes_of (demo_run 1 [EvStart; EvSetParams 120 4 DIGITAL (Some 0%nat);
                        EvElapse (31 # 32); EvTimer 2;
                        EvElapse (1 # 2); EvTimer 4]
              (demo_engine 60 4 DIGITAL, demo_world))
  = [(0, Fin (3602879701896397 # 72057594037927936), true, DigitalTone 1000);
     (1, Fin (4728779608739021 # 4503599627370496), false, DigitalTone 600);
     (2, Fin (6980579422424269 # 4503599627370496), false, DigitalTone 600)].
Proof. vm_compute. reflexivity. Qed.

(** ** C7 and C8: custom sounds *)

Example run_custom_accent_only :
  notes_of (demo_run 1 [EvStart; EvElapse (1 # 2); EvTimer 2]
              (accent_only_engine, demo_world))
  = [(0, Fin (3602879701896397 # 72057594037927936), true,
      BufferPlayback "data:audio/wav;base64,UklGRg"%string);
     (1, Fin (2476979795053773 # 4503599627370496), false, DigitalTone 600)].
Proof. vm_compute. reflexivity. Qed.

Lemma custom_profile_plays_buffer_or_digital_witness :
  audioCtx accent_only_engine = Some running /\
  profile accent_only_engine = CUSTOM /\
  exists r,
    rendered (scheduleNote accent_only_engine 1 (Fin (55 # 100)) demo_world)
      = rendered demo_world ++ [r] /\
    r_beat r = 1 /\ r_time r = Fin (55 # 100) /\
    r_accent r = isAccent 1 (beatsPerMeasure accent_only_engine) /\
    (forall buf,
       (if r_accent r then customAccentBuffer accent_only_engine
        else customBeatBuffer accent_only_engine) = Some buf ->
       r_sound r = BufferPlayback buf) /\
    ((if r_accent r then customAccentBuffer accent_only_engine
      else customBeatBuffer accent_only_engine) = None ->
       r_sound r = DigitalTone (if r_accent r then 1000 else 600) /\
       r_sound r = playDigital accent_only_engine (r_accent r) /\
       r_sound r <> Silence).
Proof.
  assert (H1 : audioCtx accent_only_engine = Some running) by reflexivity.
  assert (H2 : profile accent_only_engine = CUSTOM) by reflexivity.
  split; [exact H1|]. split; [exact H2|].
  exact (custom_profile_plays_buffer_or_digital accent_only_engine demo_world
           running 1 (Fin (55 # 100)) H1 H2).
Defined.

Lemma decode_failure_clears_buffer_witness :
  truthy (Some "not a sound"%string) = Some "not a sound"%string /\
  demo_decode "not a sound" = None /\
  customAccentBuffer (fst after_bad_accent) = None /\
  decode_failure_message ∈ console (snd after_bad_accent) /\
  (profile (fst after_bad_accent) = CUSTOM ->
   renderSound (fst after_bad_accent) true = DigitalTone 1000).
Proof.
  assert (H1 : truthy (Some "not a sound"%string) = Some "not a sound"%string)
    by reflexivity.
  assert (H2 : demo_decode "not a sound" = None) by reflexivity.
  split; [exact H1|]. split; [exact H2|].
  exact (proj1 (decode_failure_clears_buffer demo_decode
                  (Some "not a sound"%string)
                  (Some "data:audio/wav;base64,UklGRg"%string)
                  (demo_engine 120 4 CUSTOM) (fst after_bad_accent)
                  demo_world (snd after_bad_accent)
                  (surjective_pairing after_bad_accent))
           "not a sound"%string H1 H2).
Defined.

(** ** C9: the tempos 120, [1e20], infinity and 0 *)

(** C9 (counterexample).  The tempo [1e20] is a double and strictly
    positive.  [60 / 1e20] is [6e-19], and adding it to 0.05, the time
    [start] gives the first note at clock 0, gives 0.05 again: the loop
    that [start] enters renders beat after beat for 0.05 s and does not
    end, whatever the fuel. *)
Lemma tempo_1e20_poll_never_returns :
  (0 < tempo_1e20)%Q /\
  of_spec (S754_finite false 6103515625000000 14) = Fin tempo_1e20 /\
  bpm (demo_engine tempo_1e20 4 DIGITAL) = Fin tempo_1e20 /\
  nextNoteTime (@newAudioEngine string nat) = Fin 0 /\
  num_add (literal (5 # 100)) (num_div (literal 60) (Fin tempo_1e20))
    = literal (5 # 100) /\
  forall fuel, start fuel (demo_engine tempo_1e20 4 DIGITAL) demo_world = None.
Proof.
  split; [reflexivity|]. split; [by_evaluation|]. split; [reflexivity|].
  split; [reflexivity|]. split; [by_evaluation|].
  apply start_stuck; by_evaluation.
Qed.

Lemma poll_loop_terminates_for_dial_tempo_witness :
  bpm (demo_engine 120 4 DIGITAL) = Fin 120 /\
  (1 <= 120)%Q /\ (120 <= 240)%Q /\ clock_ok (currentTime demo_world) /\
  nextNoteTime (demo_engine 120 4 DIGITAL) = Fin 0 /\ (0 <= 0)%Q /\
  (exists fuel r,
     scheduler_loop fuel (demo_engine 120 4 DIGITAL) demo_world = Some r /\
     due (fst r) (snd r) = false /\
     forall fuel', (fuel <= fuel')%nat ->
       scheduler_loop fuel' (demo_engine 120 4 DIGITAL) demo_world = Some r) /\
  (exists fuel r, scheduler fuel (demo_engine 120 4 DIGITAL) demo_world = Some r).
Proof.
  assert (H1 : bpm (demo_engine 120 4 DIGITAL) = Fin 120) by reflexivity.
  assert (H2 : (1 <= 120)%Q) by lra.
  assert (H3 : (120 <= 240)%Q) by lra.
  assert (H4 : clock_ok (currentTime demo_world)) by (split; by_evaluation).
  assert (H5 : nextNoteTime (demo_engine 120 4 DIGITAL) = Fin 0)
    by reflexivity.
  assert (H6 : (0 <= 0)%Q) by lra.
  repeat (split; [assumption|]).
  pose proof (proj1 (@poll_loop_terminates_for_dial_tempo string nat)
                (demo_engine 120 4 DIGITAL) demo_world 120%Q 0%Q H1 H2 H3 H4 H5 H6)
    as (Ha & Hb & _).
  exact (conj Ha Hb).
Defined.

(** With the tempo [Infinity] the interval is 0, and [start] does not
    return either. *)
Example tempo_infinity_poll_never_returns :
  num_div (literal 60) PosInf = Fin 0 /\
  forall fuel,
    start fuel (setParams PosInf 4 DIGITAL (Some 0%nat) newAudioEngine)
      demo_world = None.
Proof. split; [by_evaluation|]. apply start_stuck; by_evaluation. Qed.

(** With the tempo 0 the interval is [Infinity]: [start] renders beat 0 and
    no poll renders another note. *)
Example tempo_0_ends_the_stream :
  match demo_run 1 [EvSetParams 0 4 DIGITAL (Some 0%nat); EvStart;
                    EvElapse 1000; EvTimer 2]
          (newAudioEngine, demo_world) with
  | Some (e, w) => nextNoteTime e = PosInf /\ length (rendered w) = 1%nat
  | None => False
  end.
Proof. vm_compute. split; reflexivity. Qed.
